(** * Stellar Raise frontend formatters

    A shallow embedding of the two leaf modules of the frontend utilities:

    - [DateFormatter]: [formatDate], [formatDateTime], [formatRelativeTime]
      and [isExpired], translated from the JavaScript source
      (frontend/utils/dateFormatter.js);
    - [CurrencyFormatter]: [stroopsToXLM], [xlmToStroops], [formatCurrency],
      [formatCompact] and [formatProgress].  Only the test-suite of that
      module is part of the sources at hand, so its functions are modelled
      from the specification and checked against the test-suite.

    JavaScript values are restricted to the documented input domain of the
    functions: [undefined], [null] and numbers.

    Besides, [Format] embeds the string helpers of frontend/utils/format.ts,
    and [ScrollToTopJs] and [ScrollToTopTsx] the two scroll-to-top
    components, as transition systems over a model of the window ([Page]). *)

From Stdlib Require Import ZArith QArith Qround Qabs Qpower Bool List.
From Stdlib Require Import Lia Lqa Morphisms.
From Stdlib Require Import Ascii String DecimalString.

Import ListNotations.
Open Scope string_scope.
Open Scope Z_scope.

(* ================================================================== *)
(** ** Strings *)

Module Str.

(** Decimal rendering of an integer, as [Number::toString] renders an
    integral number below 2^53 in magnitude. *)
Definition of_Z (z : Z) : string := NilZero.string_of_int (Z.to_int z).

Fixpoint replicate (n : nat) (c : ascii) : string :=
  match n with
  | O => EmptyString
  | S k => String c (replicate k c)
  end.

(** [padStart n "0"] *)
Definition pad0 (n : nat) (s : string) : string :=
  replicate (n - String.length s) "0"%char ++ s.

End Str.

(* ================================================================== *)
(** ** Host arithmetic: binary64 rounding *)

(** Numbers of the amount module are rationals, and every arithmetic
    operation rounds its exact result to 53 significant bits, to nearest
    with ties to even, as the host's doubles do.  The exponent range is
    unbounded: overflow and underflow are outside the model, which agrees
    with the doubles on results between 2^-1022 and 2^1024 in magnitude. *)

Module Binary64.
Local Open Scope Q_scope.

Definition pow2 (e : Z) : Q := Qpower 2 e.

(** For [0 < x], the exponent [e] with [2^e <= x < 2^(e+1)]. *)
Definition ilog2 (x : Q) : Z :=
  let l := (Z.log2 (Qnum x) - Z.log2 (Zpos (Qden x)))%Z in
  if Qle_bool (pow2 l) x then l else (l - 1)%Z.

(** Nearest integer, ties to even. *)
Definition rne (y : Q) : Z :=
  let f := Qfloor y in
  match Qcompare (y - inject_Z f) (1 # 2) with
  | Lt => f
  | Gt => (f + 1)%Z
  | Eq => if Z.even f then f else (f + 1)%Z
  end.

Definition round_pos (x : Q) : Q :=
  let c := (ilog2 x - 52)%Z in
  inject_Z (rne (x / pow2 c)) * pow2 c.

(** The rounding of an exact result to a double. *)
Definition fl (x : Q) : Q :=
  match Qcompare x 0 with
  | Eq => 0
  | Gt => round_pos x
  | Lt => - round_pos (- x)
  end.

(** Unit roundoff *)
Definition u : Q := pow2 (-53).

(** The double nearest to an integer: the integer itself up to 2^53 in
    magnitude, and an integer in any case. *)
Definition nearest_double (z : Z) : Z :=
  (Z.sgn z * Qfloor (fl (inject_Z (Z.abs z))))%Z.

(** [Math.max], [Math.min] *)
Definition Math_max (a b : Q) : Q := if Qle_bool a b then b else a.
Definition Math_min (a b : Q) : Q := if Qle_bool a b then a else b.

(** The digits of [Number.prototype.toFixed(d)] for [0 <= x]: the integer
    [n] closest to [x * 10^d], the larger one on a tie, written with [d]
    digits after the point. *)
Definition fixed_digits (group : Z -> string) (x : Q) (d : nat) : string :=
  let scale := (10 ^ Z.of_nat d)%Z in
  let n := Qfloor (x * inject_Z scale + (1 # 2)) in
  match d with
  | O => group n
  | S _ => group (n / scale)%Z ++ "."
             ++ Str.pad0 d (Str.of_Z (n mod scale)%Z)
  end.

Definition signed (digits : Q -> string) (x : Q) : string :=
  if Qle_bool 0 x then digits x else "-" ++ digits (- x).

(** [x.toFixed(d)] *)
Definition toFixed (x : Q) (d : nat) : string :=
  signed (fun y => fixed_digits Str.of_Z y d) x.

(** Digits in groups of three, separated by commas. *)
Fixpoint group3 (fuel : nat) (n : Z) : string :=
  match fuel with
  | O => Str.of_Z n
  | S k =>
      if (n <? 1000)%Z then Str.of_Z n
      else group3 k (n / 1000)%Z ++ ","
             ++ Str.pad0 3 (Str.of_Z (n mod 1000)%Z)
  end.

Definition grouped (n : Z) : string := group3 (Z.to_nat (Z.log2 n)) n.

(** For [0 < x], the [k] with [10^(k-1) <= x < 10^k]: the estimate from the
    binary exponent is off by one at most. *)
Definition magnitude10 (x : Q) : Z :=
  let k0 := (ilog2 x * 30103 / 100000)%Z in
  if negb (Qle_bool (Qpower 10 (k0 - 1)) x) then (k0 - 1)%Z
  else if negb (Qle_bool (Qpower 10 k0) x) then k0
  else if negb (Qle_bool (Qpower 10 (k0 + 1)) x) then (k0 + 1)%Z
  else (k0 + 2)%Z.

(** The decimal of [n] significant digits that reads back as [x], if there
    is one: of the two decimals next to [x], the closer one that rounds to
    [x] (the even one on a tie). *)
Definition reads_back (x : Q) (k n : Z) : option Q :=
  let scale := Qpower 10 (n - k) in
  let lo := Qfloor (x * scale) in
  let below := inject_Z lo / scale in
  let above := inject_Z (lo + 1) / scale in
  match Qeq_bool (fl below) x, Qeq_bool (fl above) x with
  | true, true =>
      match Qcompare (x - below) (above - x) with
      | Lt => Some below
      | Gt => Some above
      | Eq => if Z.even lo then Some below else Some above
      end
  | true, false => Some below
  | false, true => Some above
  | false, false => None
  end.

Fixpoint shortest_from (fuel : nat) (x : Q) (k n : Z) : Q :=
  match fuel with
  | O => x
  | S f =>
      match reads_back x k n with
      | Some c => c
      | None => shortest_from f x k (n + 1)%Z
      end
  end.

(** The shortest decimal that reads back as the double [x >= 0], with at
    most 17 significant digits: the digits that the host prints. *)
Definition shortest_decimal (x : Q) : Q :=
  if Qle_bool x 0 then x else shortest_from 17 x (magnitude10 x) 1.

(** [x.toLocaleString("en-US", ...)] with exactly [d] fraction digits: the
    shortest decimal of [x], rounded half up at digit [d]. *)
Definition toLocaleString (x : Q) (d : nat) : string :=
  signed (fun y => fixed_digits grouped (shortest_decimal y) d) x.

End Binary64.

(* ================================================================== *)
(** ** JavaScript values of the input domain *)

Module Js.

(** Numbers.  Timestamps are integer counts of seconds, so the numbers of
    the date module are the integers together with [NaN]; fractions and
    infinities are outside the model.  A difference is rounded to the
    nearest double; products, quotients and the printed digits are those
    of the integers, which is what doubles give below 2^53 in magnitude. *)
Inductive number : Set :=
| NaN
| Int (z : Z).

(** The values a caller passes: [undefined], [null] or a number.  The
    type of numbers is a parameter: integers with [NaN] for timestamps,
    rationals for amounts. *)
Inductive value (N : Type) : Type :=
| Undefined
| Null
| Num (n : N).

Arguments Undefined {N}.
Arguments Null {N}.
Arguments Num {N} n.

(** [ToBoolean]: the falsy values are [undefined], [null], [NaN] and [0]. *)
Definition ToBoolean (v : value number) : bool :=
  match v with
  | Undefined | Null | Num NaN => false
  | Num (Int z) => negb (z =? 0)
  end.

(** [Number(v)] *)
Definition ToNumber (v : value number) : number :=
  match v with
  | Undefined => NaN
  | Null => Int 0
  | Num n => n
  end.

(** [v !== n] for a number [n]: values of another type are never strictly
    equal to a number, and [NaN] is not equal to anything. *)
Definition strict_ne (v : value number) (n : number) : bool :=
  match v, n with
  | Num (Int a), Int b => negb (a =? b)
  | _, _ => true
  end.

Definition lift2 (f : Z -> Z -> Z) (a b : number) : number :=
  match a, b with
  | Int x, Int y => Int (f x y)
  | _, _ => NaN
  end.

(** [a - b]: the double nearest to the difference. *)
Definition sub : number -> number -> number :=
  lift2 (fun x y => Binary64.nearest_double (x - y)).

Definition mul : number -> number -> number := lift2 Z.mul.

(** [Math.abs] *)
Definition Math_abs (a : number) : number :=
  match a with
  | Int x => Int (Z.abs x)
  | NaN => NaN
  end.

(** [Math.floor(a / b)] for a positive integer constant [b]: on integers
    below 2^53 in magnitude the floor of the rounded quotient is [Z.div]. *)
Definition Math_floor_div (a : number) (b : Z) : number :=
  match a with
  | Int x => Int (x / b)
  | NaN => NaN
  end.

(** [a > b]: every comparison with [NaN] is false. *)
Definition gt (a b : number) : bool :=
  match a, b with
  | Int x, Int y => y <? x
  | _, _ => false
  end.

(** [a !== b] on numbers *)
Definition ne (a b : number) : bool :=
  match a, b with
  | Int x, Int y => negb (x =? y)
  | _, _ => true
  end.

(** A number inside a template literal *)
Definition toString (a : number) : string :=
  match a with
  | Int x => Str.of_Z x
  | NaN => "NaN"
  end.

(** A parameter with a default value: [undefined] selects the default. *)
Definition default {A : Type} (d : A) (o : option A) : A :=
  match o with
  | Some a => a
  | None => d
  end.

End Js.

(* ================================================================== *)
(** ** dateFormatter.js *)

Module DateFormatter.
Import Js.

(** The placeholder returned for a missing timestamp (an em dash). *)
Definition placeholder : string := "—".

(** The option bags handed to the host's formatter. *)
Inductive field_style : Set := numeric | two_digit | short.

Record options : Set := mkOptions {
  year : option field_style;
  month : option field_style;
  day : option field_style;
  hour : option field_style;
  minute : option field_style
}.

Definition date_options : options :=
  mkOptions (Some numeric) (Some short) (Some numeric) None None.

Definition datetime_options : options :=
  mkOptions (Some numeric) (Some short) (Some numeric)
            (Some numeric) (Some two_digit).

(** [new Date(ms)]: the time value is clipped to 8.64e15 milliseconds on
    either side of the epoch; outside, the date is invalid ([NaN]). *)
Definition new_Date (ms : number) : number :=
  match ms with
  | Int t => if Z.abs t <=? 8640000000000000 then Int t else NaN
  | NaN => NaN
  end.

Section Host.

(** The host's locale-aware rendering of a valid time value
    ([Intl.DateTimeFormat], in the host's time zone). *)
Variable format : string -> options -> Z -> string.

(** [Date.prototype.toLocaleDateString] and [toLocaleString] with an
    explicit option bag: an invalid date renders as "Invalid Date". *)
Definition toLocaleDateString (d : number) (locale : string)
           (o : options) : string :=
  match d with
  | Int tv => format locale o tv
  | NaN => "Invalid Date"
  end.

Definition toLocaleString (d : number) (locale : string)
           (o : options) : string :=
  match d with
  | Int tv => format locale o tv
  | NaN => "Invalid Date"
  end.

Definition formatDate (timestamp : value number) (locale : option string)
  : string :=
  let locale := default "en-US" locale in
  if negb (ToBoolean timestamp) && strict_ne timestamp (Int 0)
  then placeholder
  else
    let date := new_Date (mul (ToNumber timestamp) (Int 1000)) in
    toLocaleDateString date locale date_options.

Definition formatDateTime (timestamp : value number) (locale : option string)
  : string :=
  let locale := default "en-US" locale in
  if negb (ToBoolean timestamp) && strict_ne timestamp (Int 0)
  then placeholder
  else
    let date := new_Date (mul (ToNumber timestamp) (Int 1000)) in
    toLocaleString date locale datetime_options.

End Host.

(** A host whose formatter never renders a date as the placeholder. *)
Definition never_placeholder (format : string -> options -> Z -> string)
  : Prop :=
  forall locale o tv, format locale o tv <> placeholder.

(** [clock] is the reading of [Date.now()], in milliseconds. *)
Definition formatRelativeTime (clock : Z) (timestamp : value number)
  : string :=
  if negb (ToBoolean timestamp) then placeholder
  else
    let now := Math_floor_div (Int clock) 1000 in
    let diff := sub (ToNumber timestamp) now in
    let absDiff := Math_abs diff in
    let minutes := Math_floor_div absDiff 60 in
    let hours := Math_floor_div absDiff 3600 in
    let days := Math_floor_div absDiff 86400 in
    if gt diff (Int 0) then
      if gt days (Int 0) then
        toString days ++ " day"
          ++ (if ne days (Int 1) then "s" else "") ++ " left"
      else if gt hours (Int 0) then
        toString hours ++ " hour"
          ++ (if ne hours (Int 1) then "s" else "") ++ " left"
      else
        toString minutes ++ " minute"
          ++ (if ne minutes (Int 1) then "s" else "") ++ " left"
    else
      if gt days (Int 0) then
        "Ended " ++ toString days ++ " day"
          ++ (if ne days (Int 1) then "s" else "") ++ " ago"
      else if gt hours (Int 0) then
        "Ended " ++ toString hours ++ " hour"
          ++ (if ne hours (Int 1) then "s" else "") ++ " ago"
      else
        "Ended " ++ toString minutes ++ " minute"
          ++ (if ne minutes (Int 1) then "s" else "") ++ " ago".

Definition isExpired (clock : Z) (timestamp : value number) : bool :=
  if negb (ToBoolean timestamp) then false
  else gt (Math_floor_div (Int clock) 1000) (ToNumber timestamp).


(** *** The relative phrase as the specification words it *)

(** "<N> <unit>(s)", the unit in the plural exactly when N is not 1 *)
Definition unit_phrase (n : Z) (unit : string) : string :=
  Str.of_Z n ++ " " ++ unit ++ (if n =? 1 then "" else "s").

(** Days first, then hours, then minutes; minutes also when they are 0. *)
Definition cascade (diff : Z) : string :=
  let days := Z.abs diff / 86400 in
  let hours := Z.abs diff / 3600 in
  let minutes := Z.abs diff / 60 in
  if 0 <? days then unit_phrase days "day"
  else if 0 <? hours then unit_phrase hours "hour"
  else unit_phrase minutes "minute".

Definition relative_spec (now t : Z) : string :=
  let diff := t - now in
  if 0 <? diff then cascade diff ++ " left"
  else "Ended " ++ cascade diff ++ " ago".

(** *** A sample host: en-US, time zone UTC *)

Module EnUS.

(** Civil date (year, month, day) of a day count relative to the epoch,
    in the proleptic Gregorian calendar. *)
Definition civil (days : Z) : Z * Z * Z :=
  let z := days + 719468 in
  let era := z / 146097 in
  let doe := z - era * 146097 in
  let yoe := (doe - doe / 1460 + doe / 36524 - doe / 146096) / 365 in
  let doy := doe - (365 * yoe + yoe / 4 - yoe / 100) in
  let mp := (5 * doy + 2) / 153 in
  let d := doy - (153 * mp + 2) / 5 + 1 in
  let m := if mp <? 10 then mp + 3 else mp - 9 in
  let y := yoe + era * 400 + (if m <=? 2 then 1 else 0) in
  (y, m, d).

Definition month_abbr (m : Z) : string :=
  if m =? 1 then "Jan" else if m =? 2 then "Feb"
  else if m =? 3 then "Mar" else if m =? 4 then "Apr"
  else if m =? 5 then "May" else if m =? 6 then "Jun"
  else if m =? 7 then "Jul" else if m =? 8 then "Aug"
  else if m =? 9 then "Sep" else if m =? 10 then "Oct"
  else if m =? 11 then "Nov" else "Dec".

(** "MMM d, y": the year of a date before year 1 is rendered as the
    year of its era. *)
Definition render_date (tv : Z) : string :=
  let '(y, m, d) := civil (tv / 86400000) in
  month_abbr m ++ " " ++ Str.of_Z d ++ ", "
    ++ Str.of_Z (if y <=? 0 then 1 - y else y).

(** "h:mm a" on the 12-hour clock *)
Definition render_time (tv : Z) : string :=
  let minutes := (tv mod 86400000) / 60000 in
  let h := minutes / 60 in
  let h12 := if h mod 12 =? 0 then 12 else h mod 12 in
  Str.of_Z h12 ++ ":" ++ Str.pad0 2 (Str.of_Z (minutes mod 60))
    ++ (if h <? 12 then " AM" else " PM").

Definition format (locale : string) (o : options) (tv : Z) : string :=
  match hour o with
  | Some _ => render_date tv ++ ", " ++ render_time tv
  | None => render_date tv
  end.

End EnUS.

End DateFormatter.

(* ================================================================== *)
(** ** currencyFormatter *)

Module CurrencyFormatter.
Import Js Binary64.
Local Open Scope Q_scope.

(** Modelled from the spec: the scale, one major unit (XLM) is 10^7
    smallest units (stroops); the source of the module is missing. *)
Definition STROOPS_PER_XLM : Q := 10000000.

(** Modelled from the spec: [toMajorUnits], named [stroopsToXLM] by the
    test-suite; the source of the module is missing.  Divides by 10^7;
    a missing amount yields 0. *)
Definition stroopsToXLM (stroops : value Q) : Q :=
  match stroops with
  | Num x => fl (x / STROOPS_PER_XLM)
  | Undefined | Null => 0
  end.

(** Modelled from the spec: [toSmallestUnits], named [xlmToStroops] by the
    test-suite; the source of the module is missing.  Multiplies by 10^7;
    a missing amount yields 0. *)
Definition xlmToStroops (xlm : value Q) : Q :=
  match xlm with
  | Num x => fl (x * STROOPS_PER_XLM)
  | Undefined | Null => 0
  end.

(** Modelled from the spec: [formatCurrency(amount, decimals = 2,
    symbol = "XLM")]; the source of the module is missing.  The amount in
    major units with exactly [decimals] fraction digits and thousands
    separators, a space and the symbol; a missing amount yields
    "0.00 <symbol>". *)
Definition formatCurrency (stroops : value Q) (decimals : option nat)
           (symbol : option string) : string :=
  let decimals := default 2%nat decimals in
  let symbol := default "XLM" symbol in
  match stroops with
  | Undefined | Null => "0.00 " ++ symbol
  | Num _ => toLocaleString (stroopsToXLM stroops) decimals ++ " " ++ symbol
  end.

(** Modelled from the spec: [formatCompact(amount, symbol = "XLM")]; the
    source of the module is missing.  Millions with an M, thousands with a
    K, otherwise as [formatCurrency] with 2 decimals; a missing amount
    yields "0 <symbol>". *)
Definition formatCompact (stroops : value Q) (symbol : option string)
  : string :=
  let symbol := default "XLM" symbol in
  match stroops with
  | Undefined | Null => "0 " ++ symbol
  | Num _ =>
      let xlm := stroopsToXLM stroops in
      if Qle_bool 1000000 xlm then
        toFixed (fl (xlm / 1000000)) 2 ++ "M " ++ symbol
      else if Qle_bool 1000 xlm then
        toFixed (fl (xlm / 1000)) 2 ++ "K " ++ symbol
      else formatCurrency stroops (Some 2%nat) (Some symbol)
  end.

(** Modelled from the spec: the guard of [formatProgress], a goal that is
    zero, [null] or [undefined]. *)
Definition no_goal (goal : value Q) : bool :=
  match goal with
  | Undefined | Null => true
  | Num g => Qeq_bool g 0
  end.

(** A division that records an attempt to divide by zero as [None]. *)
Definition checked_div (a b : Q) : option Q :=
  if Qeq_bool b 0 then None else Some (fl (a / b)).

(** Modelled from the spec: the clamp of the progress ratio to [0, 1]. *)
Definition clamp01 (x : Q) : Q := Math_min (Math_max x 0) 1.

(** Modelled from the spec: [formatProgress(raised, goal)]; the source of
    the module is missing.  Without a goal the result is "0.00%";
    otherwise the ratio of the two amounts in major units, clamped to
    [0, 1], times 100, with 2 decimals and a percent sign.  The result is
    [None] when a division by zero is attempted. *)
Definition formatProgress (raised goal : value Q) : option string :=
  if no_goal goal then Some "0.00%"
  else
    match checked_div (stroopsToXLM raised) (stroopsToXLM goal) with
    | None => None
    | Some ratio => Some (toFixed (fl (clamp01 ratio * 100)) 2 ++ "%")
    end.

End CurrencyFormatter.

(* ================================================================== *)
(** ** format.ts *)

(** Strings are sequences of code units, one [ascii] each: addresses and
    hashes are ASCII.  The character counts are integers. *)

Module Format.
Import Js.

Fixpoint take (n : nat) (s : string) : string :=
  match n, s with
  | S k, String c r => String c (take k r)
  | _, _ => EmptyString
  end.

Fixpoint drop (n : nat) (s : string) : string :=
  match n, s with
  | S k, String _ r => drop k r
  | _, _ => s
  end.

(** The position a relative index of [String.prototype.slice] denotes: a
    negative index counts from the end, and the result is clamped to the
    string. *)
Definition relative_index (len i : Z) : Z :=
  if i <? 0 then Z.max (len + i) 0 else Z.min i len.

(** [s.slice(start, end)]; a missing [end] is the length. *)
Definition slice (s : string) (start : Z) (end_ : option Z) : string :=
  let len := Z.of_nat (String.length s) in
  let from := relative_index len start in
  let to := match end_ with
            | Some e => relative_index len e
            | None => len
            end in
  take (Z.to_nat (to - from)) (drop (Z.to_nat from) s).

Definition shortenAddress (address : string) (startChars endChars : option Z)
  : string :=
  let startChars := default 4 startChars in
  let endChars := default 4 endChars in
  match address with
  | EmptyString => ""
  | _ =>
      if Z.of_nat (String.length address) <=? startChars + endChars
      then address
      else slice address 0 (Some startChars) ++ "..."
             ++ slice address (- endChars) None
  end.

Definition shortenHash (hash : string) : string :=
  shortenAddress hash (Some 6) (Some 4).

End Format.

(* ================================================================== *)
(** ** scroll-to-top.js and ScrollToTop.tsx *)

(** The page as the two components see it: the scroll position, and the
    scroll listeners of the window.  A listener is a function object; each
    evaluation of an arrow function makes a new object, told apart by a
    number taken from [next_fn]. *)

Module Page.
Import Js.

Record window : Set := mkWindow {
  scrollY : number;
  scroll_listeners : list nat;
  next_fn : nat
}.

(** Evaluating a function expression: a function object not seen before. *)
Definition new_function (w : window) : nat * window :=
  (next_fn w, mkWindow (scrollY w) (scroll_listeners w) (S (next_fn w))).

(** [window.addEventListener("scroll", f)]: a listener already registered
    is not registered twice. *)
Definition addEventListener (f : nat) (w : window) : window :=
  if existsb (Nat.eqb f) (scroll_listeners w) then w
  else mkWindow (scrollY w) (scroll_listeners w ++ [f]) (next_fn w).

(** [window.removeEventListener("scroll", f)]: removes the listener that
    is the same function object. *)
Definition removeEventListener (f : nat) (w : window) : window :=
  mkWindow (scrollY w)
           (filter (fun g => negb (Nat.eqb f g)) (scroll_listeners w))
           (next_fn w).

(** [window.scrollTo({ top, behavior: "smooth" })], at the end of the
    animation. *)
Definition scrollTo (top : Z) (w : window) : window :=
  mkWindow (Int top) (scroll_listeners w) (next_fn w).

(** The user scrolls to [y]. *)
Definition scrolled (y : Z) (w : window) : window :=
  mkWindow (Int y) (scroll_listeners w) (next_fn w).

(** What happens on the page: the user scrolls to a position, or the
    button is clicked (by the user when it shows, or by a script). *)
Inductive event : Set :=
| Scroll (y : Z)
| Click.

(** Where the page is after an event. *)
Definition position (e : event) : Z :=
  match e with
  | Scroll y => y
  | Click => 0
  end.

(** Function objects are numbered below [next_fn]. *)
Definition well_formed (w : window) : Prop :=
  Forall (fun f => (f < next_fn w)%nat) (scroll_listeners w).

End Page.

Module ScrollToTopJs.
Import Js Page.

(** The fields of the class, and of its button the two style properties
    that [show] and [hide] write and whether it has a parent node.
    [closures] is not a field: it lists the arrow functions
    [() => this.handleScroll()] made for this instance, of which the class
    keeps no reference. *)
Record instance : Set := mkInstance {
  threshold : number;
  isVisible : bool;
  opacity : string;
  visibility : string;
  attached : bool;
  closures : list nat
}.

Definition show (i : instance) : instance :=
  mkInstance (threshold i) true "1" "visible" (attached i) (closures i).

Definition hide (i : instance) : instance :=
  mkInstance (threshold i) false "0" "hidden" (attached i) (closures i).

Definition handleScroll (w : window) (i : instance) : instance :=
  let shouldBeVisible := gt (scrollY w) (threshold i) in
  if shouldBeVisible && negb (isVisible i) then show i
  else if negb shouldBeVisible && isVisible i then hide i
  else i.

(** [createButton]: the button starts transparent and hidden, and is
    appended to the body. *)
Definition createButton (i : instance) : instance :=
  mkInstance (threshold i) (isVisible i) "0" "hidden" true (closures i).

(** [attachEventListeners]: a new arrow function is registered. *)
Definition attachEventListeners (s : window * instance)
  : window * instance :=
  let '(f, w1) := new_function (fst s) in
  let i := snd s in
  (addEventListener f w1,
   mkInstance (threshold i) (isVisible i) (opacity i) (visibility i)
              (attached i) (f :: closures i)).

(** [init] *)
Definition init (s : window * instance) : window * instance :=
  attachEventListeners (fst s, createButton (snd s)).

(** [new ScrollToTop(options)], [options.threshold] being [opt]. *)
Definition new_ScrollToTop (opt : value number) (w : window)
  : window * instance :=
  let threshold := if ToBoolean opt then ToNumber opt else Int 300 in
  init (w, mkInstance threshold false "" "" false []).

Definition scrollToTop (w : window) : window := scrollTo 0 w.

(** [destroy]: the button leaves its parent; the function handed to
    [removeEventListener] is a new arrow function. *)
Definition destroy (s : window * instance) : window * instance :=
  let i := snd s in
  let '(f, w1) := new_function (fst s) in
  (removeEventListener f w1,
   mkInstance (threshold i) (isVisible i) (opacity i) (visibility i)
              (if attached i then false else attached i)
              (f :: closures i)).

(** A listener runs: the arrow functions of this instance call its
    [handleScroll]. *)
Definition listener_runs (w : window) (i : instance) (f : nat) : instance :=
  if existsb (Nat.eqb f) (closures i) then handleScroll w i else i.

(** The listeners run in turn. *)
Definition handlers (w : window) (l : list nat) (i : instance) : instance :=
  fold_left (listener_runs w) l i.

(** The browser dispatches a scroll event to the registered listeners. *)
Definition dispatch_scroll (s : window * instance) : window * instance :=
  (fst s, handlers (fst s) (scroll_listeners (fst s)) (snd s)).

(** The user scrolls to [y]; or clicks the button, whose click listener is
    [scrollToTop], and the scroll arrives at the top. *)
Definition step (e : event) (s : window * instance) : window * instance :=
  match e with
  | Scroll y => dispatch_scroll (scrolled y (fst s), snd s)
  | Click => dispatch_scroll (scrollToTop (fst s), snd s)
  end.

Definition run (es : list event) (s : window * instance)
  : window * instance :=
  fold_left (fun s e => step e s) es s.

(** The style agrees with the flag. *)
Definition consistent (i : instance) : Prop :=
  if isVisible i
  then opacity i = "1" /\ visibility i = "visible"
  else opacity i = "0" /\ visibility i = "hidden".

(** A listener of the instance is registered. *)
Definition listening (s : window * instance) : bool :=
  existsb (fun f => existsb (Nat.eqb f) (closures (snd s)))
          (scroll_listeners (fst s)).

End ScrollToTopJs.

Module ScrollToTopTsx.
Import Js Page.

Definition SCROLL_THRESHOLD : number := Int 300.

(** The state of the component, and the [handleScroll] of its effect, kept
    by the cleanup function while the component is mounted. *)
Record component : Set := mkComponent {
  isVisible : bool;
  handler : option nat
}.

(** [handleScroll] of the effect: [setIsVisible(window.scrollY > 300)]. *)
Definition handleScroll (w : window) (c : component) : component :=
  mkComponent (gt (scrollY w) SCROLL_THRESHOLD) (handler c).

(** First render and effect: the state starts at [false], and the effect
    registers its [handleScroll]. *)
Definition mount (w : window) : window * component :=
  let '(f, w1) := new_function w in
  (addEventListener f w1, mkComponent false (Some f)).

(** The cleanup of the effect removes the function it registered. *)
Definition unmount (w : window) (c : component) : window * component :=
  match handler c with
  | Some f => (removeEventListener f w, mkComponent (isVisible c) None)
  | None => (w, c)
  end.

(** What is rendered: nothing, or the button (its label). *)
Definition render (c : component) : option string :=
  if negb (isVisible c) then None else Some "Scroll to top".

Definition scrollToTop (w : window) : window := scrollTo 0 w.

(** The browser dispatches a scroll event: the handler runs if it is
    registered. *)
Definition dispatch_scroll (s : window * component) : window * component :=
  match handler (snd s) with
  | Some f =>
      if existsb (Nat.eqb f) (scroll_listeners (fst s))
      then (fst s, handleScroll (fst s) (snd s))
      else s
  | None => s
  end.

(** The user scrolls to [y]; or clicks the button, whose [onClick] is
    [scrollToTop], and the scroll arrives at the top. *)
Definition step (e : event) (s : window * component) : window * component :=
  match e with
  | Scroll y => dispatch_scroll (scrolled y (fst s), snd s)
  | Click => dispatch_scroll (scrollToTop (fst s), snd s)
  end.

Definition run (es : list event) (s : window * component)
  : window * component :=
  fold_left (fun s e => step e s) es s.

(** The component is mounted: its handler is registered. *)
Definition mounted (s : window * component) : Prop :=
  exists f, handler (snd s) = Some f /\ In f (scroll_listeners (fst s)).

End ScrollToTopTsx.


(* ================================================================== *)
(** * Properties *)

Module StrFacts.

Lemma app_assoc (a b c : string) : (a ++ b) ++ c = a ++ (b ++ c).
Proof.
  induction a as [|x a IH]; simpl; [reflexivity | now rewrite IH].
Qed.

End StrFacts.

(** ** The rounding operator *)

Module Binary64Facts.
Import Binary64.
Local Open Scope Q_scope.

(** Turn the outcomes of [Qcompare] in the context into order facts. *)
Ltac compare_facts :=
  repeat match goal with
    | H : Qcompare _ _ = Eq |- _ => apply Qeq_alt in H
    | H : Qcompare _ _ = Lt |- _ => apply Qlt_alt in H
    | H : Qcompare _ _ = Gt |- _ => apply Qgt_alt in H
    end.

Lemma pow2_pos e : 0 < pow2 e.
Proof. apply Qpower_0_lt. reflexivity. Qed.

Lemma pow2_add a b : pow2 (a + b) == pow2 a * pow2 b.
Proof. apply Qpower_plus. discriminate. Qed.

Lemma pow2_succ a : pow2 (a + 1) == 2 * pow2 a.
Proof. rewrite pow2_add. unfold pow2 at 2. simpl. ring. Qed.

Lemma pow2_le a b : (a <= b)%Z -> pow2 a <= pow2 b.
Proof. intros. apply Qpower_le_compat_l; [assumption | discriminate]. Qed.

Lemma pow2_lt a b : (a < b)%Z -> pow2 a < pow2 b.
Proof. intros. apply Qpower_lt_compat_l; [assumption | reflexivity]. Qed.

Lemma pow2_inject k : (0 <= k)%Z -> inject_Z (2 ^ k) == pow2 k.
Proof. intros. apply Zpower_Qpower. assumption. Qed.

(** A quotient of two numbers, each within a factor 2 above a power of two,
    is within a factor 2 of the quotient of the powers. *)
Lemma ratio_window x n d pa pb l :
  0 < pb -> 0 < l -> x * d == n -> l * pb == pa ->
  pa <= n -> n < 2 * pa -> pb <= d -> d < 2 * pb ->
  x < 2 * l /\ l < 2 * x.
Proof. intros. split; nra. Qed.

Lemma inject_Z_window k n :
  (0 <= k)%Z -> (2 ^ k <= n < 2 ^ Z.succ k)%Z ->
  pow2 k <= inject_Z n /\ inject_Z n < 2 * pow2 k.
Proof.
  intros K [L U]. rewrite <- pow2_succ, <- !pow2_inject by lia.
  rewrite <- Zle_Qle, <- Zlt_Qlt. split; [exact L | exact U].
Qed.

Lemma ilog2_spec x : 0 < x -> pow2 (ilog2 x) <= x /\ x < pow2 (ilog2 x + 1).
Proof.
  intros Hx. destruct x as [n d]. unfold ilog2. cbn [Qnum Qden].
  assert (Hn : (0 < n)%Z) by (unfold Qlt in Hx; simpl in Hx; lia).
  set (a := Z.log2 n). set (b := Z.log2 (Zpos d)).
  destruct (inject_Z_window a n (Z.log2_nonneg n) (Z.log2_spec n Hn))
    as [A1 A2].
  destruct (inject_Z_window b (Zpos d) (Z.log2_nonneg _)
              (Z.log2_spec (Zpos d) eq_refl)) as [B1 B2].
  assert (HX : (n # d) * inject_Z (Zpos d) == inject_Z n).
  { unfold Qeq, Qmult, inject_Z. simpl. lia. }
  assert (HL : pow2 (a - b) * pow2 b == pow2 a).
  { rewrite <- pow2_add. replace (a - b + b)%Z with a by lia. reflexivity. }
  destruct (ratio_window _ _ _ _ _ _ (pow2_pos b) (pow2_pos (a - b))
              HX HL A1 A2 B1 B2) as [W1 W2].
  destruct (Qle_bool (pow2 (a - b)) (n # d)) eqn:E.
  - apply Qle_bool_iff in E. split; [exact E |].
    rewrite pow2_succ. exact W1.
  - replace (a - b - 1 + 1)%Z with (a - b)%Z by lia.
    assert (E' : n # d < pow2 (a - b)).
    { apply Qnot_le_lt. intro H. apply Qle_bool_iff in H. congruence. }
    split; [| exact E'].
    assert (HS : pow2 (a - b) == 2 * pow2 (a - b - 1)).
    { rewrite <- pow2_succ.
      replace (a - b - 1 + 1)%Z with (a - b)%Z by lia. reflexivity. }
    rewrite HS in W2. lra.
Qed.

Lemma ilog2_unique x e : pow2 e <= x -> x < pow2 (e + 1) -> ilog2 x = e.
Proof.
  intros H1 H2.
  assert (Hx : 0 < x) by (pose proof (pow2_pos e); lra).
  destruct (ilog2_spec x Hx) as [L1 L2].
  destruct (Z.lt_trichotomy (ilog2 x) e) as [C|[C|C]];
    [exfalso | assumption | exfalso].
  - assert (pow2 (ilog2 x + 1) <= pow2 e) by (apply pow2_le; lia). lra.
  - assert (pow2 (e + 1) <= pow2 (ilog2 x)) by (apply pow2_le; lia). lra.
Qed.

Lemma ilog2_proper x y : 0 < x -> x == y -> ilog2 x = ilog2 y.
Proof.
  intros Hx E. symmetry. destruct (ilog2_spec x Hx).
  apply ilog2_unique; rewrite <- E; assumption.
Qed.

Lemma ilog2_mono x y : 0 < x -> x <= y -> (ilog2 x <= ilog2 y)%Z.
Proof.
  intros Hx L. assert (Hy : 0 < y) by lra.
  destruct (ilog2_spec x Hx), (ilog2_spec y Hy).
  destruct (Z_le_gt_dec (ilog2 x) (ilog2 y)) as [C|C]; [assumption | exfalso].
  assert (pow2 (ilog2 y + 1) <= pow2 (ilog2 x)) by (apply pow2_le; lia). lra.
Qed.

Lemma rne_cases y :
  (rne y = Qfloor y /\ y - inject_Z (Qfloor y) <= 1 # 2) \/
  (rne y = (Qfloor y + 1)%Z /\ 1 # 2 <= y - inject_Z (Qfloor y)).
Proof.
  unfold rne.
  destruct (Qcompare (y - inject_Z (Qfloor y)) (1 # 2)) eqn:E.
  - compare_facts.
    destruct (Z.even (Qfloor y)); [left | right]; (split; [reflexivity | lra]).
  - compare_facts. left; split; [reflexivity | lra].
  - compare_facts. right; split; [reflexivity | lra].
Qed.

Lemma floor_bounds y : inject_Z (Qfloor y) <= y /\ y < inject_Z (Qfloor y) + 1.
Proof.
  split; [apply Qfloor_le|].
  pose proof (Qlt_floor y) as H. rewrite inject_Z_plus in H. exact H.
Qed.

Lemma rne_err y : Qabs (inject_Z (rne y) - y) <= 1 # 2.
Proof.
  destruct (floor_bounds y) as [F1 F2].
  apply Qabs_Qle_condition.
  destruct (rne_cases y) as [[-> H]|[-> H]];
    rewrite ?inject_Z_plus; change (inject_Z 1) with 1; split; lra.
Qed.

#[global] Instance rne_comp : Proper (Qeq ==> eq) rne.
Proof.
  intros y y' E. unfold rne. rewrite (Qfloor_comp _ _ E).
  assert (C : Qcompare (y - inject_Z (Qfloor y')) (1 # 2)
            = Qcompare (y' - inject_Z (Qfloor y')) (1 # 2)).
  { apply Qcompare_comp; [rewrite E|]; reflexivity. }
  rewrite C. reflexivity.
Qed.

Lemma rne_Z k : rne (inject_Z k) = k.
Proof.
  destruct (rne_cases (inject_Z k)) as [[-> H]|[E H]].
  - apply Qfloor_Z.
  - rewrite Qfloor_Z in H. exfalso. lra.
Qed.

Lemma rne_mono y y' : y <= y' -> (rne y <= rne y')%Z.
Proof.
  intros L.
  pose proof (Qfloor_resp_le _ _ L) as FL.
  destruct (floor_bounds y) as [F1 F2], (floor_bounds y') as [G1 G2].
  destruct (Z.eq_dec (Qfloor y) (Qfloor y')) as [E|NE].
  - unfold rne. rewrite <- E.
    destruct (Qcompare (y - inject_Z (Qfloor y)) (1 # 2)) eqn:C1;
      destruct (Qcompare (y' - inject_Z (Qfloor y)) (1 # 2)) eqn:C2;
      try (destruct (Z.even (Qfloor y))); try lia; exfalso;
      compare_facts; lra.
  - destruct (rne_cases y) as [[-> _]|[-> _]];
      destruct (rne_cases y') as [[-> _]|[-> _]]; lia.
Qed.

Lemma pow2_split k c e : (k + c = e)%Z -> pow2 e == pow2 k * pow2 c.
Proof. intros <-. apply pow2_add. Qed.

(** The scaled argument of [round_pos] has 53 bits before the point. *)
Lemma scaled_bounds x :
  0 < x ->
  pow2 52 <= x / pow2 (ilog2 x - 52) /\ x / pow2 (ilog2 x - 52) < pow2 53.
Proof.
  intros Hx. destruct (ilog2_spec x Hx) as [L1 L2].
  pose proof (pow2_pos (ilog2 x - 52)) as P.
  rewrite (pow2_split 52 (ilog2 x - 52)) in L1 by lia.
  rewrite (pow2_split 53 (ilog2 x - 52)) in L2 by lia.
  split.
  - apply Qle_shift_div_l; assumption.
  - apply Qlt_shift_div_r; assumption.
Qed.

(** The significand of the result has 53 bits (or is 2^53). *)
Lemma significand_bounds x :
  0 < x -> (2 ^ 52 <= rne (x / pow2 (ilog2 x - 52)) <= 2 ^ 53)%Z.
Proof.
  intros Hx. destruct (scaled_bounds x Hx) as [S1 S2]. split.
  - rewrite <- (rne_Z (2 ^ 52)). apply rne_mono.
    rewrite pow2_inject by lia. exact S1.
  - rewrite <- (rne_Z (2 ^ 53)). apply rne_mono.
    rewrite pow2_inject by lia. lra.
Qed.

Lemma round_pos_bounds x :
  0 < x -> pow2 (ilog2 x) <= round_pos x /\ round_pos x <= pow2 (ilog2 x + 1).
Proof.
  intros Hx. destruct (significand_bounds x Hx) as [M1 M2].
  unfold round_pos. set (c := (ilog2 x - 52)%Z) in *.
  pose proof (pow2_pos c) as P.
  rewrite Zle_Qle in M1, M2. rewrite pow2_inject in M1, M2 by lia.
  rewrite (pow2_split 52 c (ilog2 x)), (pow2_split 53 c (ilog2 x + 1))
    by (unfold c; lia).
  split; apply Qmult_le_compat_r; lra.
Qed.

Lemma round_pos_comp x y : 0 < x -> x == y -> round_pos x == round_pos y.
Proof.
  intros Hx E. unfold round_pos. rewrite <- (ilog2_proper x y Hx E).
  assert (R : rne (x / pow2 (ilog2 x - 52)) = rne (y / pow2 (ilog2 x - 52))).
  { apply rne_comp. unfold Qdiv. apply Qmult_comp; [exact E | reflexivity]. }
  rewrite R. reflexivity.
Qed.

Lemma round_pos_mono x y : 0 < x -> x <= y -> round_pos x <= round_pos y.
Proof.
  intros Hx L. assert (Hy : 0 < y) by lra.
  pose proof (ilog2_mono x y Hx L) as EL.
  destruct (Z.eq_dec (ilog2 x) (ilog2 y)) as [E|NE].
  - unfold round_pos. rewrite <- E. set (c := (ilog2 x - 52)%Z).
    pose proof (pow2_pos c) as P.
    apply Qmult_le_compat_r; [|lra].
    rewrite <- Zle_Qle. apply rne_mono.
    apply Qmult_le_compat_r; [assumption|].
    apply Qlt_le_weak, Qinv_lt_0_compat. assumption.
  - destruct (round_pos_bounds x Hx) as [_ U].
    destruct (round_pos_bounds y Hy) as [V _].
    assert (pow2 (ilog2 x + 1) <= pow2 (ilog2 y)) by (apply pow2_le; lia).
    lra.
Qed.

(** Half a unit in the last place is at most [2^-53] of the argument. *)
Lemma round_pos_err x : 0 < x -> Qabs (round_pos x - x) <= pow2 (-53) * x.
Proof.
  intros Hx. destruct (ilog2_spec x Hx) as [L1 _].
  unfold round_pos. set (c := (ilog2 x - 52)%Z) in *.
  pose proof (pow2_pos c) as P.
  pose proof (rne_err (x / pow2 c)) as R.
  assert (E : inject_Z (rne (x / pow2 c)) * pow2 c - x
              == (inject_Z (rne (x / pow2 c)) - x / pow2 c) * pow2 c).
  { field. lra. }
  rewrite E, Qabs_Qmult, (Qabs_pos (pow2 c)) by lra.
  assert (E3 : pow2 (-53) * pow2 (ilog2 x) == (1 # 2) * pow2 c).
  { rewrite (pow2_split 52 c (ilog2 x)) by (unfold c; lia).
    unfold pow2 at 1 2. simpl. field. }
  pose proof (pow2_pos (-53)) as P53.
  apply Qle_trans with ((1 # 2) * pow2 c).
  - apply Qmult_le_compat_r; lra.
  - rewrite <- E3. apply Qmult_le_l; assumption.
Qed.

Lemma fl_pos_eq x : 0 < x -> fl x = round_pos x.
Proof.
  intros H. unfold fl. destruct (Qcompare x 0) eqn:E; trivial;
    compare_facts; lra.
Qed.

Lemma fl_neg_eq x : x < 0 -> fl x = - round_pos (- x).
Proof.
  intros H. unfold fl. destruct (Qcompare x 0) eqn:E; trivial;
    compare_facts; lra.
Qed.

Lemma fl_zero_eq x : x == 0 -> fl x = 0.
Proof.
  intros H. unfold fl. destruct (Qcompare x 0) eqn:E; trivial;
    compare_facts; lra.
Qed.

Lemma fl_sign_pos x : 0 < x -> 0 < fl x.
Proof.
  intros H. rewrite (fl_pos_eq x H).
  destruct (round_pos_bounds x H) as [L _].
  pose proof (pow2_pos (ilog2 x)). lra.
Qed.

Lemma fl_sign_neg x : x < 0 -> fl x < 0.
Proof.
  intros H. rewrite (fl_neg_eq x H). assert (H' : 0 < - x) by lra.
  destruct (round_pos_bounds _ H') as [L _].
  pose proof (pow2_pos (ilog2 (- x))). lra.
Qed.

Lemma fl_eq_0 x : fl x == 0 -> x == 0.
Proof.
  intros H. destruct (Q_dec x 0) as [[C|C]|C]; [| |assumption]; exfalso.
  - pose proof (fl_sign_neg x C). lra.
  - pose proof (fl_sign_pos x C). lra.
Qed.

#[global] Instance fl_comp : Proper (Qeq ==> Qeq) fl.
Proof.
  intros x y E. destruct (Q_dec x 0) as [[C|C]|C].
  - rewrite (fl_neg_eq x C), (fl_neg_eq y) by lra.
    apply Qopp_comp, round_pos_comp; lra.
  - rewrite (fl_pos_eq x C), (fl_pos_eq y) by lra.
    apply round_pos_comp; lra.
  - rewrite (fl_zero_eq x C), (fl_zero_eq y) by lra. reflexivity.
Qed.

(** Rounding is monotone. *)
Lemma fl_mono x y : x <= y -> fl x <= fl y.
Proof.
  intros L.
  destruct (Q_dec x 0) as [[Cx|Cx]|Cx], (Q_dec y 0) as [[Cy|Cy]|Cy];
    try (exfalso; lra).
  - rewrite (fl_neg_eq x Cx), (fl_neg_eq y Cy).
    apply Qopp_le_compat, round_pos_mono; lra.
  - pose proof (fl_sign_neg x Cx). pose proof (fl_sign_pos y Cy). lra.
  - pose proof (fl_sign_neg x Cx). rewrite (fl_zero_eq y Cy). lra.
  - rewrite (fl_pos_eq x Cx), (fl_pos_eq y Cy). apply round_pos_mono; lra.
  - pose proof (fl_sign_pos y Cy). rewrite (fl_zero_eq x Cx). lra.
  - rewrite (fl_zero_eq x Cx), (fl_zero_eq y Cy). lra.
Qed.

(** The relative error of one rounding is at most the unit roundoff. *)
Lemma fl_err x : Qabs (fl x - x) <= u * Qabs x.
Proof.
  destruct (Q_dec x 0) as [[C|C]|C].
  - rewrite (fl_neg_eq x C), (Qabs_neg x) by lra.
    assert (H' : 0 < - x) by lra.
    pose proof (round_pos_err _ H') as R.
    assert (E : - round_pos (- x) - x == - (round_pos (- x) - - x)) by ring.
    rewrite E, Qabs_opp. exact R.
  - rewrite (fl_pos_eq x C), (Qabs_pos x) by lra.
    apply round_pos_err. assumption.
  - rewrite (fl_zero_eq x C). rewrite C. vm_compute. discriminate.
Qed.

(** Integers up to 2^53 in magnitude are doubles: rounding fixes them. *)
Lemma round_pos_Z k :
  (0 < k < 2 ^ 53)%Z -> round_pos (inject_Z k) == inject_Z k.
Proof.
  intros [K0 K1].
  pose proof (Z.log2_nonneg k) as L0.
  assert (L1 : (Z.log2 k < 53)%Z) by (apply Z.log2_lt_pow2; lia).
  destruct (inject_Z_window _ k L0 (Z.log2_spec k K0)) as [W1 W2].
  assert (E : ilog2 (inject_Z k) = Z.log2 k).
  { apply ilog2_unique; [exact W1 | rewrite pow2_succ; exact W2]. }
  unfold round_pos. rewrite E. set (c := (Z.log2 k - 52)%Z).
  pose proof (pow2_pos c) as P.
  assert (I : pow2 c * pow2 (- c) == 1).
  { rewrite <- pow2_add. replace (c + - c)%Z with 0%Z by lia. reflexivity. }
  assert (S : inject_Z k / pow2 c == inject_Z (k * 2 ^ (- c))).
  { rewrite inject_Z_mult, pow2_inject by (unfold c; lia).
    apply Qeq_trans with (inject_Z k * (pow2 c * pow2 (- c)) / pow2 c).
    - rewrite I. field. lra.
    - field. lra. }
  rewrite (rne_comp _ _ S), rne_Z.
  rewrite inject_Z_mult, pow2_inject by (unfold c; lia).
  apply Qeq_trans with (inject_Z k * (pow2 c * pow2 (- c))).
  - ring.
  - rewrite I. ring.
Qed.

Lemma fl_Z k : (Z.abs k <= 2 ^ 53)%Z -> fl (inject_Z k) == inject_Z k.
Proof.
  intros H.
  destruct (Z.eq_dec (Z.abs k) (2 ^ 53)) as [T|T].
  - destruct (Z.abs_eq_or_opp k) as [E|E]; rewrite E in T.
    + rewrite T. vm_compute. reflexivity.
    + replace k with (- 2 ^ 53)%Z by lia. vm_compute. reflexivity.
  - destruct (Z.lt_trichotomy k 0) as [C|[->|C]].
    + assert (N : inject_Z k < 0) by (rewrite Zlt_Qlt in C; exact C).
      rewrite (fl_neg_eq _ N), <- inject_Z_opp, round_pos_Z by lia.
      rewrite inject_Z_opp. ring.
    + reflexivity.
    + assert (N : 0 < inject_Z k) by (rewrite Zlt_Qlt in C; exact C).
      rewrite (fl_pos_eq _ N). apply round_pos_Z. lia.
Qed.

Lemma fl_0 : fl 0 == 0.
Proof. reflexivity. Qed.

Lemma fl_1 : fl 1 == 1.
Proof. apply (fl_Z 1). discriminate. Qed.

Lemma fl_100 : fl 100 == 100.
Proof. apply (fl_Z 100). discriminate. Qed.

Lemma u_pos : 0 < u.
Proof. apply pow2_pos. Qed.

(** *** Integers as doubles *)

Lemma Qfloor_unique y n :
  inject_Z n <= y -> y < inject_Z (n + 1) -> Qfloor y = n.
Proof.
  intros L U. apply Z.le_antisymm.
  - apply Z.lt_succ_r. rewrite Zlt_Qlt.
    apply Qle_lt_trans with y; [apply Qfloor_le | exact U].
  - rewrite <- (Qfloor_Z n). apply Qfloor_resp_le, L.
Qed.


Lemma nearest_double_opp z : nearest_double (- z) = (- nearest_double z)%Z.
Proof.
  unfold nearest_double. rewrite Z.sgn_opp, Z.abs_opp. ring.
Qed.

Lemma nearest_double_pos z : (0 < z)%Z -> (0 < nearest_double z)%Z.
Proof.
  intros H. unfold nearest_double.
  rewrite (Z.sgn_pos z H), (Z.abs_eq z) by lia. rewrite Z.mul_1_l.
  apply Z.lt_le_trans with (Qfloor (fl 1)).
  - rewrite (Qfloor_comp _ _ fl_1). reflexivity.
  - apply Qfloor_resp_le, fl_mono.
    change 1 with (inject_Z 1). rewrite <- Zle_Qle. lia.
Qed.

(** Rounding keeps the sign of a difference. *)
Lemma nearest_double_sign z : (0 <? nearest_double z)%Z = (0 <? z)%Z.
Proof.
  destruct (Z.lt_trichotomy z 0) as [N|[->|P]].
  - pose proof (nearest_double_pos (- z) ltac:(lia)) as H.
    rewrite nearest_double_opp in H.
    destruct (Z.ltb_spec 0 (nearest_double z)), (Z.ltb_spec 0 z);
      try reflexivity; lia.
  - reflexivity.
  - pose proof (nearest_double_pos z P) as H.
    destruct (Z.ltb_spec 0 (nearest_double z)), (Z.ltb_spec 0 z);
      try reflexivity; lia.
Qed.

Lemma nearest_double_abs z :
  Z.abs (nearest_double (- z)) = Z.abs (nearest_double z).
Proof. rewrite nearest_double_opp. apply Z.abs_opp. Qed.

(** The floor of a rounded quotient of integers is the quotient of the
    integers, as long as the dividend is below 2^53 in magnitude. *)
Lemma floor_quotient_exact a k :
  (0 < k)%Z -> (Z.abs a < 2 ^ 53)%Z ->
  Qfloor (fl (inject_Z a / inject_Z k)) = (a / k)%Z.
Proof.
  intros K A.
  assert (K0 : 0 < inject_Z k).
  { change 0 with (inject_Z 0). rewrite <- Zlt_Qlt. exact K. }
  set (q := inject_Z a / inject_Z k).
  assert (Q : q * inject_Z k == inject_Z a) by (unfold q; field; lra).
  assert (N1 : inject_Z (a / k) * inject_Z k <= inject_Z a).
  { rewrite <- inject_Z_mult, <- Zle_Qle.
    rewrite Z.mul_comm. apply Z.mul_div_le. exact K. }
  assert (N2 : inject_Z a + 1 <= (inject_Z (a / k) + 1) * inject_Z k).
  { change 1 with (inject_Z 1).
    rewrite <- !inject_Z_plus, <- inject_Z_mult, <- Zle_Qle.
    pose proof (Z.mul_succ_div_gt a k K). lia. }
  assert (NB : (Z.abs (a / k) <= 2 ^ 53)%Z).
  { apply Z.abs_le. split; Z.div_mod_to_equations; nia. }
  assert (AB : Qabs (inject_Z a) <= pow2 53 - 1).
  { change (Qabs (inject_Z a)) with (inject_Z (Z.abs a)).
    rewrite <- (pow2_inject 53) by lia.
    change (inject_Z (2 ^ 53) - 1) with (inject_Z (2 ^ 53 - 1)).
    rewrite <- Zle_Qle. lia. }
  pose proof (fl_err q) as E. apply Qabs_Qle_condition in E.
  assert (UQ : u * Qabs q * inject_Z k == u * Qabs (inject_Z a)).
  { rewrite <- Q, Qabs_Qmult, (Qabs_pos (inject_Z k)) by lra. ring. }
  assert (U53 : u * pow2 53 == 1) by (vm_compute; reflexivity).
  pose proof u_pos as UP.
  apply Qfloor_unique.
  - apply Qle_trans with (fl (inject_Z (a / k))).
    + rewrite (fl_Z _ NB). apply Qle_refl.
    + apply fl_mono. apply Qle_shift_div_l; assumption.
  - rewrite inject_Z_plus. change (inject_Z 1) with 1.
    apply Qmult_lt_r with (inject_Z k); [exact K0 |].
    generalize dependent (Qabs (inject_Z a)).
    generalize dependent (Qabs q).
    generalize dependent (fl q).
    generalize dependent (inject_Z (a / k)).
    generalize dependent (inject_Z a).
    generalize dependent (inject_Z k).
    generalize dependent (pow2 53). generalize dependent u.
    clear. intros. nra.
Qed.

(** *** Rendering *)

Lemma Math_max_spec a b : a <= Math_max a b /\ b <= Math_max a b.
Proof.
  unfold Math_max. destruct (Qle_bool a b) eqn:E.
  - apply Qle_bool_iff in E. lra.
  - assert (~ a <= b) by (intro H; apply Qle_bool_iff in H; congruence). lra.
Qed.

Lemma Math_min_spec a b : Math_min a b <= a /\ Math_min a b <= b.
Proof.
  unfold Math_min. destruct (Qle_bool a b) eqn:E.
  - apply Qle_bool_iff in E. lra.
  - assert (~ a <= b) by (intro H; apply Qle_bool_iff in H; congruence). lra.
Qed.

Lemma Math_max_cases a b : Math_max a b = a \/ Math_max a b = b.
Proof. unfold Math_max. destruct (Qle_bool a b); auto. Qed.

Lemma Math_min_cases a b : Math_min a b = a \/ Math_min a b = b.
Proof. unfold Math_min. destruct (Qle_bool a b); auto. Qed.

Lemma Qle_bool_false a b : Qle_bool a b = false <-> b < a.
Proof.
  split; intros H.
  - apply Qnot_le_lt. intro L. apply Qle_bool_iff in L. congruence.
  - destruct (Qle_bool a b) eqn:E; [|reflexivity].
    apply Qle_bool_iff in E. lra.
Qed.

Lemma Qle_bool_comp a a' b b' :
  a == a' -> b == b' -> Qle_bool a b = Qle_bool a' b'.
Proof.
  intros Ea Eb. destruct (Qle_bool a' b') eqn:E.
  - apply Qle_bool_iff. apply Qle_bool_iff in E. lra.
  - apply Qle_bool_false. apply Qle_bool_false in E. lra.
Qed.

Lemma fixed_digits_comp group x y d :
  x == y -> fixed_digits group x d = fixed_digits group y d.
Proof.
  intros E. unfold fixed_digits.
  assert (F : Qfloor (x * inject_Z (10 ^ Z.of_nat d) + (1 # 2))
              = Qfloor (y * inject_Z (10 ^ Z.of_nat d) + (1 # 2))).
  { apply Qfloor_comp. rewrite E. reflexivity. }
  rewrite F. reflexivity.
Qed.

Lemma signed_comp digits x y :
  (forall a b, a == b -> digits a = digits b) ->
  x == y -> signed digits x = signed digits y.
Proof.
  intros D E. unfold signed.
  rewrite (Qle_bool_comp 0 0 x y (Qeq_refl 0) E).
  destruct (Qle_bool 0 y).
  - apply D, E.
  - f_equal. apply D. rewrite E. reflexivity.
Qed.

Lemma toFixed_comp x y d : x == y -> toFixed x d = toFixed y d.
Proof.
  intros E. apply signed_comp; [|exact E].
  intros a b. apply fixed_digits_comp.
Qed.

(** Two decimals of a number between 0 and 100: a count of hundredths
    between 0 and 10000. *)
Lemma toFixed_2_percent x :
  0 <= x -> x <= 100 ->
  exists n, (0 <= n <= 10000)%Z
    /\ toFixed x 2
       = Str.of_Z (n / 100) ++ "." ++ Str.pad0 2 (Str.of_Z (n mod 100)).
Proof.
  intros L U. exists (Qfloor (x * inject_Z (10 ^ 2) + (1 # 2))). split.
  - split.
    + change 0%Z with (Qfloor (1 # 2)). apply Qfloor_resp_le.
      change (inject_Z (10 ^ 2)) with 100. lra.
    + change 10000%Z with (Qfloor (100 * 100 + (1 # 2))). apply Qfloor_resp_le.
      change (inject_Z (10 ^ 2)) with 100. lra.
  - unfold toFixed, signed.
    assert (E : Qle_bool 0 x = true) by (apply Qle_bool_iff; exact L).
    rewrite E. reflexivity.
Qed.

(** The fuel of [grouped] is enough: more fuel does not change the result. *)
Lemma group3_more fuel : forall n,
  (0 <= n < 1000 ^ Z.of_nat (S fuel))%Z -> group3 (S fuel) n = group3 fuel n.
Proof.
  induction fuel as [|k IH]; intros n [L U].
  - cbn [group3]. destruct (n <? 1000)%Z eqn:E; [reflexivity|].
    apply Z.ltb_ge in E. change (1000 ^ Z.of_nat 1)%Z with 1000%Z in U. lia.
  - change (group3 (S (S k)) n)
      with (if (n <? 1000)%Z then Str.of_Z n
            else group3 (S k) (n / 1000)%Z ++ ","
                   ++ Str.pad0 3 (Str.of_Z (n mod 1000)%Z)).
    change (group3 (S k) n)
      with (if (n <? 1000)%Z then Str.of_Z n
            else group3 k (n / 1000)%Z ++ ","
                   ++ Str.pad0 3 (Str.of_Z (n mod 1000)%Z)).
    destruct (n <? 1000)%Z; [reflexivity|].
    rewrite IH; [reflexivity|]. split.
    + apply Z.div_pos; lia.
    + apply Z.div_lt_upper_bound; [lia|].
      rewrite Nat2Z.inj_succ, Z.pow_succ_r in U by lia. exact U.
Qed.

Lemma grouped_enough n extra :
  (0 <= n)%Z -> group3 (Z.to_nat (Z.log2 n) + extra) n = grouped n.
Proof.
  intros H. induction extra as [|k IH].
  - rewrite Nat.add_0_r. reflexivity.
  - rewrite Nat.add_succ_r, group3_more; [exact IH|].
    split; [exact H|].
    destruct (Z.eq_dec n 0) as [->|NZ].
    + apply Z.pow_pos_nonneg; lia.
    + assert (P : (0 < n)%Z) by lia.
      pose proof (Z.log2_spec n P) as [_ B].
      pose proof (Z.log2_nonneg n) as LN.
      apply Z.lt_le_trans with (2 ^ Z.succ (Z.log2 n))%Z; [exact B|].
      apply Z.le_trans with (1000 ^ Z.succ (Z.log2 n))%Z.
      * apply Z.pow_le_mono_l. lia.
      * apply Z.pow_le_mono_r; lia.
Qed.

End Binary64Facts.

(* ================================================================== *)
(** ** dateFormatter.js *)

Module DateFormatterFacts.
Import Js DateFormatter.

Lemma truthy_Int t : t <> 0 -> ToBoolean (Num (Int t)) = true.
Proof. intros H. simpl. apply negb_true_iff, Z.eqb_neq, H. Qed.

Lemma toLocaleDateString_never format d locale o :
  never_placeholder format ->
  toLocaleDateString format d locale o <> placeholder.
Proof. intros H. destruct d; simpl; [discriminate | apply H]. Qed.

Lemma toLocaleString_never format d locale o :
  never_placeholder format ->
  toLocaleString format d locale o <> placeholder.
Proof. intros H. destruct d; simpl; [discriminate | apply H]. Qed.

(** *** The sample host *)

Lemma month_abbr_app m rest : EnUS.month_abbr m ++ rest <> placeholder.
Proof.
  unfold EnUS.month_abbr.
  repeat match goal with |- context [if ?b then _ else _] => destruct b end;
    discriminate.
Qed.

Lemma render_date_app tv rest : EnUS.render_date tv ++ rest <> placeholder.
Proof.
  unfold EnUS.render_date. destruct (EnUS.civil _) as [[y m] d].
  rewrite StrFacts.app_assoc. apply month_abbr_app.
Qed.

Lemma EnUS_never_placeholder : never_placeholder EnUS.format.
Proof.
  intros locale o tv. unfold EnUS.format. destruct (hour o).
  - apply render_date_app.
  - unfold EnUS.render_date. destruct (EnUS.civil _) as [[y m] d].
    apply month_abbr_app.
Qed.

(** The timestamp of test-date.mjs (a day of 2025, although its comment
    says 2026) and the example of the docstring of [formatDateTime]. *)
Example formatDate_sample :
  formatDate EnUS.format (Num (Int 1740182400)) None = "Feb 22, 2025".
Proof. reflexivity. Qed.

Example formatDateTime_sample :
  formatDateTime EnUS.format (Num (Int 1771756200)) None
  = "Feb 22, 2026, 10:30 AM".
Proof. reflexivity. Qed.

Example formatDate_epoch :
  formatDate EnUS.format (Num (Int 0)) None = "Jan 1, 1970"
  /\ formatDateTime EnUS.format (Num (Int 0)) None = "Jan 1, 1970, 12:00 AM".
Proof. split; reflexivity. Qed.

Example formatDate_missing :
  formatDate EnUS.format Undefined None = placeholder
  /\ formatDate EnUS.format Null None = placeholder
  /\ formatDate EnUS.format (Num NaN) None = placeholder.
Proof. repeat split. Qed.

Example formatDate_out_of_range :
  formatDate EnUS.format (Num (Int (-8640000000001))) None = "Invalid Date".
Proof. reflexivity. Qed.

(** *** The relative phrase *)

Lemma plural_phrase n unit tail :
  Str.of_Z n ++ unit
    ++ (if negb (n =? 1) then "s" else "") ++ tail
  = (Str.of_Z n ++ unit ++ (if n =? 1 then "" else "s")) ++ tail.
Proof.
  rewrite !StrFacts.app_assoc. destruct (n =? 1); reflexivity.
Qed.

Lemma formatRelativeTime_Int clock t :
  t <> 0 ->
  formatRelativeTime clock (Num (Int t))
  = let diff := Binary64.nearest_double (t - clock / 1000) in
    let days := Z.abs diff / 86400 in
    let hours := Z.abs diff / 3600 in
    let minutes := Z.abs diff / 60 in
    if 0 <? diff then
      if 0 <? days then
        Str.of_Z days ++ " day"
          ++ (if negb (days =? 1) then "s" else "") ++ " left"
      else if 0 <? hours then
        Str.of_Z hours ++ " hour"
          ++ (if negb (hours =? 1) then "s" else "") ++ " left"
      else
        Str.of_Z minutes ++ " minute"
          ++ (if negb (minutes =? 1) then "s" else "") ++ " left"
    else
      if 0 <? days then
        "Ended " ++ Str.of_Z days ++ " day"
          ++ (if negb (days =? 1) then "s" else "") ++ " ago"
      else if 0 <? hours then
        "Ended " ++ Str.of_Z hours ++ " hour"
          ++ (if negb (hours =? 1) then "s" else "") ++ " ago"
      else
        "Ended " ++ Str.of_Z minutes ++ " minute"
          ++ (if negb (minutes =? 1) then "s" else "") ++ " ago".
Proof.
  intros H. unfold formatRelativeTime. rewrite (truthy_Int t H). reflexivity.
Qed.



(** Beyond that range the difference is a rounded double: at this
    timestamp, one second after the epoch, the distance
    9007199254799999 is not a double, and the count is that of its
    neighbour 9007199254800000. *)
Example relative_rounded_difference :
  formatRelativeTime 1000 (Num (Int 9007199254800000))
  = "104249991375 days left"
  /\ relative_spec 1 9007199254800000 = "104249991374 days left".
Proof. split; vm_compute; reflexivity. Qed.

(** The pluralization examples of the specification, "now" being second
    1000 of the epoch. *)
Example relative_one_day :
  formatRelativeTime 1000000 (Num (Int (1000 + 86400))) = "1 day left".
Proof. reflexivity. Qed.

Example relative_two_days :
  formatRelativeTime 1000999 (Num (Int (1000 + 2 * 86400))) = "2 days left".
Proof. reflexivity. Qed.

Example relative_minutes :
  formatRelativeTime 1000000 (Num (Int (1000 + 60))) = "1 minute left"
  /\ formatRelativeTime 1000000 (Num (Int (1000 + 3599))) = "59 minutes left"
  /\ formatRelativeTime 1000000 (Num (Int (1000 + 59))) = "0 minutes left".
Proof. repeat split. Qed.

Example relative_past :
  formatRelativeTime 1000000000 (Num (Int (1000000 - 2 * 86400)))
  = "Ended 2 days ago"
  /\ formatRelativeTime 1000000000 (Num (Int (1000000 - 3600)))
     = "Ended 1 hour ago".
Proof. repeat split. Qed.

Example relative_missing clock :
  formatRelativeTime clock Undefined = placeholder
  /\ formatRelativeTime clock Null = placeholder
  /\ formatRelativeTime clock (Num NaN) = placeholder
  /\ formatRelativeTime clock (Num (Int 0)) = placeholder.
Proof. repeat split. Qed.

(** *** Expiry *)

Lemma isExpired_Int clock t :
  t <> 0 -> isExpired clock (Num (Int t)) = (t <? clock / 1000).
Proof.
  intros H. unfold isExpired. rewrite (truthy_Int t H). reflexivity.
Qed.

(** C4: [isExpired] is false for every falsy timestamp ([0], [null],
    [undefined] among them); for any other timestamp it is true exactly
    when the current second is strictly after the timestamp, so a timestamp
    equal to the current second is not expired. *)
Theorem isExpired_strict clock :
  (forall ts, ToBoolean ts = false -> isExpired clock ts = false)
  /\ isExpired clock (Num (Int 0)) = false
  /\ isExpired clock Null = false
  /\ isExpired clock Undefined = false
  /\ (forall t, t <> 0 ->
      (isExpired clock (Num (Int t)) = true <-> t < clock / 1000))
  /\ (forall t, t = clock / 1000 -> isExpired clock (Num (Int t)) = false).
Proof.
  repeat split; try reflexivity.
  - intros ts H. unfold isExpired. rewrite H. reflexivity.
  - rewrite (isExpired_Int clock t H). apply Z.ltb_lt.
  - rewrite (isExpired_Int clock t H). apply Z.ltb_lt.
  - intros t ->. destruct (Z.eq_dec (clock / 1000) 0) as [E|E].
    + rewrite E. reflexivity.
    + rewrite (isExpired_Int clock _ E). apply Z.ltb_irrefl.
Qed.

Example isExpired_samples :
  isExpired 1000000 (Num (Int 2000)) = false
  /\ isExpired 1000000 (Num (Int 500)) = true
  /\ isExpired 1000000 (Num (Int 0)) = false.
Proof. repeat split. Qed.

(** C9: at the second of the deadline, [formatRelativeTime] already takes
    the past branch and answers "Ended 0 minutes ago", while [isExpired]
    is still false; [isExpired] turns true one second later. *)
Theorem deadline_second_disagreement clock t :
  t <> 0 ->
  t = clock / 1000 ->
  formatRelativeTime clock (Num (Int t)) = "Ended 0 minutes ago"
  /\ isExpired clock (Num (Int t)) = false
  /\ isExpired (clock + 1000) (Num (Int t)) = true.
Proof.
  intros H E. repeat split.
  - rewrite (formatRelativeTime_Int clock t H), <- E, Z.sub_diag. reflexivity.
  - rewrite (isExpired_Int clock t H), <- E. apply Z.ltb_irrefl.
  - rewrite (isExpired_Int _ t H). apply Z.ltb_lt.
    replace (clock + 1000) with (1 * 1000 + clock) by lia.
    rewrite Z.div_add_l by lia. lia.
Qed.

Lemma deadline_second_disagreement_witness :
  5 <> 0 /\ 5 = 5999 / 1000
  /\ formatRelativeTime 5999 (Num (Int 5)) = "Ended 0 minutes ago"
  /\ isExpired 5999 (Num (Int 5)) = false
  /\ isExpired (5999 + 1000) (Num (Int 5)) = true.
Proof.
  split; [discriminate |].
  split; [reflexivity |].
  apply (deadline_second_disagreement 5999 5); [discriminate | reflexivity].
Defined.

(** *** Absolute dates *)

(** C5: the timestamp 0 is a date for [formatDate] and [formatDateTime],
    which hand the epoch to the host's formatter and so never answer the
    placeholder, and it is a missing timestamp for [formatRelativeTime],
    which answers the placeholder. *)
Theorem zero_timestamp_asymmetry format clock locale :
  never_placeholder format ->
  formatDate format (Num (Int 0)) locale
  = format (default "en-US" locale) date_options 0
  /\ formatDateTime format (Num (Int 0)) locale
     = format (default "en-US" locale) datetime_options 0
  /\ formatDate format (Num (Int 0)) locale <> placeholder
  /\ formatDateTime format (Num (Int 0)) locale <> placeholder
  /\ formatRelativeTime clock (Num (Int 0)) = placeholder.
Proof.
  intros H. repeat split; apply H.
Qed.

Lemma zero_timestamp_asymmetry_witness :
  formatDate EnUS.format (Num (Int 0)) None = "Jan 1, 1970"
  /\ formatDateTime EnUS.format (Num (Int 0)) None = "Jan 1, 1970, 12:00 AM"
  /\ formatDate EnUS.format (Num (Int 0)) None <> placeholder
  /\ formatDateTime EnUS.format (Num (Int 0)) None <> placeholder
  /\ formatRelativeTime 1000000 (Num (Int 0)) = placeholder.
Proof.
  exact (zero_timestamp_asymmetry EnUS.format 1000000 None
           EnUS_never_placeholder).
Defined.

Lemma negative_in_range t :
  -8640000000000 <= t -> t < 0 ->
  new_Date (mul (ToNumber (Num (Int t))) (Int 1000)) = Int (t * 1000).
Proof.
  intros L N. simpl.
  destruct (Z.abs (t * 1000) <=? 8640000000000000) eqn:E; [reflexivity|].
  apply Z.leb_gt in E. lia.
Qed.

(** C10: a negative timestamp is not falsy, so [formatDate] and
    [formatDateTime] never answer the placeholder for it: down to the
    earliest time value of a date they hand the (negative, so before 1970)
    time value [t * 1000] to the host's formatter. *)
Theorem negative_timestamp_rendered format t locale :
  never_placeholder format ->
  t < 0 ->
  formatDate format (Num (Int t)) locale <> placeholder
  /\ formatDateTime format (Num (Int t)) locale <> placeholder
  /\ (-8640000000000 <= t ->
      t * 1000 < 0
      /\ formatDate format (Num (Int t)) locale
         = format (default "en-US" locale) date_options (t * 1000)
      /\ formatDateTime format (Num (Int t)) locale
         = format (default "en-US" locale) datetime_options (t * 1000)).
Proof.
  intros H N.
  assert (T : ToBoolean (Num (Int t)) = true) by (apply truthy_Int; lia).
  unfold formatDate, formatDateTime. rewrite T. cbv zeta. cbn [negb andb].
  split; [apply toLocaleDateString_never, H |].
  split; [apply toLocaleString_never, H |].
  intros L. rewrite (negative_in_range t L N).
  split; [lia | split; reflexivity].
Qed.

Lemma negative_timestamp_rendered_witness :
  -1 < 0
  /\ formatDate EnUS.format (Num (Int (-1))) None <> placeholder
  /\ formatDateTime EnUS.format (Num (Int (-1))) None <> placeholder
  /\ formatDate EnUS.format (Num (Int (-1))) None = "Dec 31, 1969"
  /\ formatDateTime EnUS.format (Num (Int (-1))) None
     = "Dec 31, 1969, 11:59 PM".
Proof.
  split; [reflexivity |].
  destruct (negative_timestamp_rendered EnUS.format (-1) None
              EnUS_never_placeholder eq_refl) as (A & B & _).
  repeat split; assumption.
Defined.

End DateFormatterFacts.

(* ================================================================== *)
(** ** currencyFormatter *)

Module CurrencyFormatterFacts.
Import Js Binary64 Binary64Facts CurrencyFormatter.
Local Open Scope Q_scope.

(** *** The test-suite (currencyFormatter.test) *)

(** A numeric literal of the test-suite denotes the double closest to it. *)
Example test_stroopsToXLM :
  stroopsToXLM (Num 1) == fl (1 / 10000000)
  /\ stroopsToXLM (Num 10000000) == 1
  /\ stroopsToXLM (Num 5000000) == fl (1 / 2)
  /\ stroopsToXLM (Num 10000000000000000) == 1000000000
  /\ stroopsToXLM Null == 0
  /\ stroopsToXLM Undefined == 0
  /\ stroopsToXLM (Num 0) == 0.
Proof. repeat split; vm_compute; reflexivity. Qed.

Example test_xlmToStroops :
  xlmToStroops (Num 1) == 10000000
  /\ xlmToStroops (Num (fl (1 / 2))) == 5000000
  /\ xlmToStroops (Num (fl (1 / 10000000))) == 1
  /\ xlmToStroops Null == 0
  /\ xlmToStroops (Num 0) == 0.
Proof. repeat split; vm_compute; reflexivity. Qed.

Example test_formatCurrency :
  formatCurrency (Num 1) (Some 7%nat) None = "0.0000001 XLM"
  /\ formatCurrency (Num 10000000) None None = "1.00 XLM"
  /\ formatCurrency (Num 10000000000000000) None None
     = "1,000,000,000.00 XLM"
  /\ formatCurrency (Num 12500000000) None None = "1,250.00 XLM"
  /\ formatCurrency (Num 10000000) (Some 4%nat) None = "1.0000 XLM"
  /\ formatCurrency (Num 10000000) (Some 2%nat) (Some "USDC") = "1.00 USDC"
  /\ formatCurrency Null None None = "0.00 XLM"
  /\ formatCurrency (Num 0) None None = "0.00 XLM".
Proof. repeat split; vm_compute; reflexivity. Qed.

Example test_formatCompact :
  formatCompact (Num 15000000000000) None = "1.50M XLM"
  /\ formatCompact (Num 10000000000) None = "1.00K XLM"
  /\ formatCompact (Num 10000000) None = "1.00 XLM"
  /\ formatCompact Null None = "0 XLM".
Proof. repeat split; vm_compute; reflexivity. Qed.

Example test_formatProgress :
  formatProgress (Num 5000000) (Num 10000000) = Some "50.00%"
  /\ formatProgress (Num 10000000) (Num 10000000) = Some "100.00%"
  /\ formatProgress (Num 20000000) (Num 10000000) = Some "100.00%"
  /\ formatProgress (Num 0) (Num 10000000) = Some "0.00%"
  /\ formatProgress (Num 5000000) (Num 0) = Some "0.00%"
  /\ formatProgress (Num 5000000) Null = Some "0.00%".
Proof. repeat split; vm_compute; reflexivity. Qed.

(** *** Progress *)

Lemma Qeq_bool_false a b : ~ a == b -> Qeq_bool a b = false.
Proof.
  intros H. destruct (Qeq_bool a b) eqn:E; [|reflexivity].
  apply Qeq_bool_iff in E. contradiction.
Qed.

Lemma major_pos g : 0 < g -> 0 < stroopsToXLM (Num g).
Proof.
  intros H. apply fl_sign_pos. unfold STROOPS_PER_XLM.
  apply Qlt_shift_div_l; lra.
Qed.

Lemma major_nonzero g : ~ g == 0 -> ~ stroopsToXLM (Num g) == 0.
Proof.
  intros H E. apply fl_eq_0 in E. apply H.
  unfold STROOPS_PER_XLM in E.
  assert (E' : g == g / 10000000 * 10000000) by (field).
  rewrite E'. rewrite E. reflexivity.
Qed.

Lemma major_mono a b : a <= b -> stroopsToXLM (Num a) <= stroopsToXLM (Num b).
Proof.
  intros H. apply fl_mono. unfold STROOPS_PER_XLM.
  apply Qmult_le_compat_r; [assumption | discriminate].
Qed.

(** With a goal, the result is the rendered clamped percentage. *)
Lemma formatProgress_goal raised g :
  ~ g == 0 ->
  formatProgress raised (Num g)
  = Some (toFixed
            (fl (clamp01 (fl (stroopsToXLM raised / stroopsToXLM (Num g)))
                 * 100)) 2 ++ "%").
Proof.
  intros H. unfold formatProgress, checked_div.
  cbn [no_goal]. rewrite (Qeq_bool_false g 0 H).
  rewrite (Qeq_bool_false _ 0 (major_nonzero g H)). reflexivity.
Qed.

Lemma clamp01_bounds x : 0 <= clamp01 x <= 1.
Proof.
  unfold clamp01.
  pose proof (Math_max_spec x 0) as [_ M].
  pose proof (Math_min_spec (Math_max x 0) 1) as [_ N].
  split; [|exact N].
  destruct (Math_min_cases (Math_max x 0) 1) as [-> | ->]; lra.
Qed.

Lemma clamp01_top x : 1 <= x -> clamp01 x == 1.
Proof.
  intros H. unfold clamp01.
  pose proof (Math_max_spec x 0) as [M _].
  pose proof (Math_min_spec (Math_max x 0) 1) as [_ N].
  destruct (Math_min_cases (Math_max x 0) 1) as [E | E]; rewrite E in *; lra.
Qed.

Lemma percent_bounds x : 0 <= fl (clamp01 x * 100) <= 100.
Proof.
  pose proof (clamp01_bounds x) as [L U].
  split.
  - apply Qle_trans with (fl 0); [rewrite fl_0 | apply fl_mono]; lra.
  - apply Qle_trans with (fl 100); [apply fl_mono; lra | rewrite fl_100; lra].
Qed.

(** C1: for a positive goal, [formatProgress] is the ratio of the two
    amounts in major units, clamped to [0, 1], times 100, rendered with
    exactly two decimals (a count of hundredths between 0.00 and 100.00)
    and a percent sign; when raised >= goal the result is "100.00%". *)
Theorem formatProgress_clamped r g :
  0 < g ->
  let ratio := fl (stroopsToXLM (Num r) / stroopsToXLM (Num g)) in
  formatProgress (Num r) (Num g)
  = Some (toFixed (fl (clamp01 ratio * 100)) 2 ++ "%")
  /\ 0 <= clamp01 ratio <= 1
  /\ (exists n, (0 <= n <= 10000)%Z
        /\ formatProgress (Num r) (Num g)
           = Some ((Str.of_Z (n / 100) ++ "."
                     ++ Str.pad0 2 (Str.of_Z (n mod 100))) ++ "%"))
  /\ (g <= r -> formatProgress (Num r) (Num g) = Some "100.00%").
Proof.
  intros G ratio.
  assert (NZ : ~ g == 0) by lra.
  pose proof (formatProgress_goal (Num r) g NZ) as F. fold ratio in F.
  split; [exact F |].
  split; [apply clamp01_bounds |].
  split.
  - pose proof (percent_bounds ratio) as [L U].
    destruct (toFixed_2_percent _ L U) as (n & B & E).
    exists n. split; [exact B |]. rewrite F, E. reflexivity.
  - intros GE. rewrite F.
    pose proof (major_pos g G) as P.
    pose proof (major_mono g r GE) as M.
    assert (R : 1 <= ratio).
    { unfold ratio. apply Qle_trans with (fl 1); [rewrite fl_1; lra |].
      apply fl_mono. apply Qle_shift_div_l; lra. }
    assert (E : fl (clamp01 ratio * 100) == 100).
    { rewrite <- fl_100. apply fl_comp.
      rewrite (clamp01_top ratio R). reflexivity. }
    rewrite (toFixed_comp _ _ 2 E). reflexivity.
Qed.

Lemma formatProgress_clamped_witness :
  0 < 10000000
  /\ formatProgress (Num 5000000) (Num 10000000) = Some "50.00%"
  /\ (10000000 <= 20000000 ->
      formatProgress (Num 20000000) (Num 10000000) = Some "100.00%").
Proof.
  split; [reflexivity |].
  split.
  - exact (proj1 (formatProgress_clamped 5000000 10000000 eq_refl)).
  - exact (proj2 (proj2 (proj2
             (formatProgress_clamped 20000000 10000000 eq_refl)))).
Defined.

Lemma formatProgress_zero_raised r goal :
  r == 0 -> formatProgress (Num r) goal = Some "0.00%".
Proof.
  intros R. destruct (no_goal goal) eqn:NG.
  - unfold formatProgress. rewrite NG. reflexivity.
  - destruct goal as [| |g]; try discriminate. cbn [no_goal] in NG.
    assert (NZ : ~ g == 0).
    { intro E. apply Qeq_bool_iff in E. congruence. }
    rewrite (formatProgress_goal (Num r) g NZ).
    assert (M : stroopsToXLM (Num r) = 0).
    { apply fl_zero_eq. rewrite R. reflexivity. }
    rewrite M.
    assert (Q0 : fl (0 / stroopsToXLM (Num g)) = 0).
    { apply fl_zero_eq. unfold Qdiv. ring. }
    rewrite Q0. reflexivity.
Qed.

(** C2: whatever [raised] is, [formatProgress] answers "0.00%" when the goal
    is [undefined], [null] or zero, and also when [raised] is zero; and it
    always answers: no division by zero is attempted. *)
Theorem formatProgress_no_division_by_zero raised goal :
  formatProgress raised Undefined = Some "0.00%"
  /\ formatProgress raised Null = Some "0.00%"
  /\ (forall g, g == 0 -> formatProgress raised (Num g) = Some "0.00%")
  /\ (forall r, r == 0 -> formatProgress (Num r) goal = Some "0.00%")
  /\ exists s, formatProgress raised goal = Some s.
Proof.
  split; [reflexivity |].
  split; [reflexivity |].
  split.
  { intros g E. unfold formatProgress. cbn [no_goal].
    apply Qeq_bool_iff in E. rewrite E. reflexivity. }
  split; [intros r; apply formatProgress_zero_raised |].
  destruct (no_goal goal) eqn:NG.
  - exists "0.00%". unfold formatProgress. rewrite NG. reflexivity.
  - destruct goal as [| |g]; try discriminate. cbn [no_goal] in NG.
    assert (NZ : ~ g == 0).
    { intro E. apply Qeq_bool_iff in E. congruence. }
    rewrite (formatProgress_goal raised g NZ). eexists. reflexivity.
Qed.

Example formatProgress_missing_raised :
  formatProgress Null (Num 10000000) = Some "0.00%"
  /\ formatProgress Undefined (Num 10000000) = Some "0.00%"
  /\ formatProgress Undefined Undefined = Some "0.00%".
Proof. repeat split. Qed.

(** *** The two conversions *)

Lemma fl_nonneg x : 0 <= x -> 0 <= fl x.
Proof.
  intros H. apply Qle_trans with (fl 0); [rewrite fl_0; lra |].
  apply fl_mono, H.
Qed.

(** The error of one rounded operation on a non-negative exact result. *)
Lemma fl_err_nonneg x :
  0 <= x -> x - u * x <= fl x /\ fl x <= x + u * x.
Proof.
  intros H. pose proof (fl_err x) as E.
  rewrite (Qabs_pos x H) in E. apply Qabs_Qle_condition in E. lra.
Qed.

(** C6: for a non-negative count [a] of smallest units, converting to major
    units and back recovers [a] up to two roundings: the error is at most
    [(2u + u^2) * a] for the unit roundoff [u = 2^-53]; without rounding,
    dividing by 10^7 and multiplying by 10^7 gives [a] back. *)
Theorem stroops_round_trip a :
  (0 <= a)%Z ->
  Qabs (xlmToStroops (Num (stroopsToXLM (Num (inject_Z a)))) - inject_Z a)
  <= (2 * u + u * u) * inject_Z a
  /\ inject_Z a / STROOPS_PER_XLM * STROOPS_PER_XLM == inject_Z a.
Proof.
  intros H. split; [| unfold STROOPS_PER_XLM; field].
  assert (A : 0 <= inject_Z a) by (rewrite Zle_Qle in H; exact H).
  cbn [xlmToStroops stroopsToXLM]. unfold STROOPS_PER_XLM.
  set (d := inject_Z a / 10000000).
  assert (D : d * 10000000 == inject_Z a) by (unfold d; field).
  assert (D0 : 0 <= d) by lra.
  destruct (fl_err_nonneg d D0) as [L1 U1].
  assert (X0 : 0 <= fl d) by (apply fl_nonneg, D0).
  assert (X1 : 0 <= fl d * 10000000) by lra.
  destruct (fl_err_nonneg _ X1) as [L2 U2].
  pose proof u_pos as Up.
  apply Qabs_Qle_condition.
  generalize dependent (fl (fl d * 10000000)).
  generalize dependent (fl d).
  generalize dependent (inject_Z a).
  generalize dependent u.
  clear. intros; split; nra.
Qed.

Lemma stroops_round_trip_witness :
  (0 <= 12500000000)%Z
  /\ Qabs (xlmToStroops (Num (stroopsToXLM (Num 12500000000)))
          - 12500000000)
     <= (2 * u + u * u) * 12500000000.
Proof.
  split; [discriminate |].
  exact (proj1 (stroops_round_trip 12500000000 ltac:(discriminate))).
Defined.

(** The round trip is not always exact: 21 comes back off by one unit in the
    last place, within the bound. *)
Example round_trip_inexact :
  ~ xlmToStroops (Num (stroopsToXLM (Num 21))) == 21
  /\ xlmToStroops (Num (stroopsToXLM (Num 21))) == 21 - pow2 (-48).
Proof. split; vm_compute; [discriminate | reflexivity]. Qed.

(** *** Compact and full rendering *)



Example formatCurrency_missing_seven :
  formatCurrency Null (Some 7%nat) None = "0.00 XLM"
  /\ formatCurrency (Num 0) (Some 7%nat) None = "0.0000000 XLM".
Proof. split; reflexivity. Qed.

End CurrencyFormatterFacts.

(* ================================================================== *)
(** ** format.ts *)

Module FormatFacts.
Import Js Format.

Lemma length_app (a b : string) :
  String.length (a ++ b) = (String.length a + String.length b)%nat.
Proof. induction a as [|c a IH]; simpl; [reflexivity | now rewrite IH]. Qed.

Lemma length_take n : forall s,
  String.length (take n s) = Nat.min n (String.length s).
Proof.
  induction n as [|k IH]; intros [|c r]; simpl; try reflexivity.
  now rewrite IH.
Qed.

Lemma length_drop n : forall s,
  String.length (drop n s) = (String.length s - n)%nat.
Proof.
  induction n as [|k IH]; intros [|c r]; simpl; try reflexivity.
  apply IH.
Qed.

Lemma take_all n : forall s, (String.length s <= n)%nat -> take n s = s.
Proof.
  induction n as [|k IH]; intros [|c r] H; simpl in *; try reflexivity.
  - lia.
  - rewrite IH by lia. reflexivity.
Qed.

Lemma take_app a : forall n b,
  n = String.length a -> take n (a ++ b) = a.
Proof.
  induction a as [|c a IH]; intros n b ->; simpl.
  - destruct b; reflexivity.
  - now rewrite IH.
Qed.

Lemma drop_app a : forall n k b,
  n = (String.length a + k)%nat -> drop n (a ++ b) = drop k b.
Proof.
  induction a as [|c a IH]; intros n k b ->; simpl; [reflexivity |].
  now apply IH.
Qed.

Lemma drop_0 s : drop 0 s = s.
Proof. destruct s; reflexivity. Qed.

(** A prefix taken with a count inside the string. *)
Lemma slice_prefix s n :
  0 <= n <= Z.of_nat (String.length s) ->
  slice s 0 (Some n) = take (Z.to_nat n) s.
Proof.
  intros [L U]. unfold slice, relative_index.
  replace (0 <? 0) with false by reflexivity.
  destruct (n <? 0) eqn:E; [apply Z.ltb_lt in E; lia |].
  rewrite !Z.min_l by lia.
  rewrite Z.sub_0_r. change (Z.to_nat 0) with 0%nat.
  rewrite drop_0. reflexivity.
Qed.

(** A suffix taken with a positive count inside the string. *)
Lemma slice_suffix s n :
  0 < n <= Z.of_nat (String.length s) ->
  slice s (- n) None = drop (String.length s - Z.to_nat n) s.
Proof.
  intros [L U]. unfold slice, relative_index.
  destruct (- n <? 0) eqn:E; [| apply Z.ltb_ge in E; lia].
  rewrite Z.max_l by lia.
  replace (Z.to_nat (Z.of_nat (String.length s) + - n))
    with (String.length s - Z.to_nat n)%nat by lia.
  apply take_all. rewrite length_drop. lia.
Qed.

(** [slice(-0)] is [slice(0)]: the whole string. *)
Lemma slice_minus_zero s : slice s (- 0) None = s.
Proof.
  unfold slice, relative_index. simpl (- 0 <? 0).
  rewrite Z.min_l by lia. rewrite Z.sub_0_r, Nat2Z.id.
  change (Z.to_nat 0) with 0%nat. rewrite drop_0.
  apply take_all. lia.
Qed.

Lemma shortenAddress_long address s e :
  0 <= s + e ->
  s + e < Z.of_nat (String.length address) ->
  shortenAddress address (Some s) (Some e)
  = slice address 0 (Some s) ++ "..." ++ slice address (- e) None.
Proof.
  intros N H. unfold shortenAddress. cbn [default].
  destruct address as [|c r] eqn:A.
  - simpl in H. lia.
  - rewrite <- A in *.
    destruct (Z.of_nat (String.length address) <=? s + e) eqn:E;
      [apply Z.leb_le in E; lia | reflexivity].
Qed.

Lemma shortenAddress_ends address s e :
  0 <= s -> 0 < e ->
  s + e < Z.of_nat (String.length address) ->
  shortenAddress address (Some s) (Some e)
  = take (Z.to_nat s) address ++ "..."
      ++ drop (String.length address - Z.to_nat e) address
  /\ Z.of_nat (String.length (shortenAddress address (Some s) (Some e)))
     = s + 3 + e.
Proof.
  intros S E L.
  rewrite (shortenAddress_long address s e) by lia.
  rewrite slice_prefix, slice_suffix by lia.
  split; [reflexivity |].
  rewrite !length_app, length_take, length_drop. simpl String.length. lia.
Qed.

(** X1: with a count [s >= 0] for the start and [e > 0] for the end, an
    address of more than [s + e] characters becomes its first [s]
    characters, three dots and its last [e] characters, [s + 3 + e]
    characters in all. *)
Theorem shortenAddress_keeps_ends address s e :
  0 <= s -> 0 < e ->
  s + e < Z.of_nat (String.length address) ->
  shortenAddress address (Some s) (Some e)
  = take (Z.to_nat s) address ++ "..."
      ++ drop (String.length address - Z.to_nat e) address
  /\ Z.of_nat (String.length (shortenAddress address (Some s) (Some e)))
     = s + 3 + e.
Proof.
  intros S E L.
  rewrite (shortenAddress_long address s e) by lia.
  rewrite slice_prefix, slice_suffix by lia.
  split; [reflexivity |].
  rewrite !length_app, length_take, length_drop. simpl String.length. lia.
Qed.

Lemma shortenAddress_keeps_ends_witness :
  shortenAddress "GABCDEFGHIJKLMNOP1234" (Some 4) (Some 4) = "GABC...1234".
Proof.
  exact (proj1 (shortenAddress_keeps_ends "GABCDEFGHIJKLMNOP1234" 4 4
                  ltac:(discriminate) eq_refl eq_refl)).
Defined.

Lemma shortenAddress_short address s e :
  Z.of_nat (String.length address) <= s + e ->
  shortenAddress address (Some s) (Some e) = address.
Proof.
  intros H. unfold shortenAddress. cbn [default].
  destruct address as [|c r]; [reflexivity |].
  apply Z.leb_le in H. rewrite H. reflexivity.
Qed.

(** X2: the result is longer than the address exactly when the address has
    one or two characters more than the two counts together (with the
    default counts: an address of 9 or 10 characters comes out with 11). *)
Theorem shortenAddress_lengthens address s e :
  0 <= s -> 0 < e ->
  let len := Z.of_nat (String.length address) in
  (String.length address
   < String.length (shortenAddress address (Some s) (Some e)))%nat
  <-> s + e < len < s + e + 3.
Proof.
  intros S E len.
  destruct (Z_le_gt_dec len (s + e)) as [C|C].
  - rewrite (shortenAddress_short address s e C). lia.
  - destruct (shortenAddress_ends address s e S E) as [_ L];
      [unfold len in C; lia |].
    unfold len in *. lia.
Qed.

Lemma shortenAddress_lengthens_witness :
  (String.length "GABCDEFGH"
   < String.length (shortenAddress "GABCDEFGH" (Some 4%Z) (Some 4%Z)))%nat.
Proof.
  apply (shortenAddress_lengthens "GABCDEFGH" 4 4 ltac:(discriminate) eq_refl).
  split; reflexivity.
Defined.

(** X3: shortening is idempotent for [s >= 0] and [e > 0]: a shortened
    address is shortened to itself. *)
Theorem shortenAddress_idempotent address s e :
  0 <= s -> 0 < e ->
  shortenAddress (shortenAddress address (Some s) (Some e)) (Some s) (Some e)
  = shortenAddress address (Some s) (Some e).
Proof.
  intros S E.
  destruct (Z_le_gt_dec (Z.of_nat (String.length address)) (s + e)) as [C|C].
  - rewrite (shortenAddress_short address s e C).
    apply shortenAddress_short, C.
  - destruct (shortenAddress_ends address s e S E) as [R L]; [lia |].
    set (r := shortenAddress address (Some s) (Some e)) in *.
    destruct (shortenAddress_ends r s e S E) as [R2 _]; [lia |].
    set (p := take (Z.to_nat s) address) in *.
    set (q := drop (String.length address - Z.to_nat e) address) in *.
    assert (P : String.length p = Z.to_nat s).
    { unfold p. rewrite length_take. lia. }
    assert (T : take (Z.to_nat s) r = p).
    { rewrite R. apply take_app. symmetry. exact P. }
    assert (D : drop (String.length r - Z.to_nat e) r = q).
    { replace (String.length r - Z.to_nat e)%nat
        with (String.length p + 3)%nat by lia.
      rewrite R. rewrite (drop_app p _ 3 ("..." ++ q)) by reflexivity.
      reflexivity. }
    rewrite R2, T, D. symmetry. exact R.
Qed.

Lemma shortenAddress_idempotent_witness :
  shortenAddress (shortenAddress "GABCDEFGHIJKLMNOP1234" (Some 4) (Some 4))
                 (Some 4) (Some 4)
  = shortenAddress "GABCDEFGHIJKLMNOP1234" (Some 4) (Some 4).
Proof.
  exact (shortenAddress_idempotent "GABCDEFGHIJKLMNOP1234" 4 4
           ltac:(discriminate) eq_refl).
Defined.

(** X4: with an end count of 0 the suffix is [slice(-0)], the whole
    string: an address of more than [s] characters becomes its first [s]
    characters, three dots and the whole address again. *)
Theorem shortenAddress_zero_end address s :
  0 <= s ->
  s < Z.of_nat (String.length address) ->
  shortenAddress address (Some s) (Some 0)
  = take (Z.to_nat s) address ++ "..." ++ address.
Proof.
  intros S L.
  rewrite (shortenAddress_long address s 0) by lia.
  rewrite slice_prefix by lia.
  rewrite slice_minus_zero. reflexivity.
Qed.

Lemma shortenAddress_zero_end_witness :
  shortenAddress "GABCDEFGHIJ" (Some 4) (Some 0) = "GABC...GABCDEFGHIJ".
Proof.
  exact (shortenAddress_zero_end "GABCDEFGHIJ" 4 ltac:(discriminate) eq_refl).
Defined.

(** X5: [shortenHash] leaves a hash of up to 10 characters as it is and
    turns a longer one into 13 characters: the first 6, three dots, the
    last 4. *)
Theorem shortenHash_shape hash :
  (Z.of_nat (String.length hash) <= 10 -> shortenHash hash = hash)
  /\ (10 < Z.of_nat (String.length hash) ->
      shortenHash hash
      = take 6 hash ++ "..." ++ drop (String.length hash - 4) hash
      /\ String.length (shortenHash hash) = 13%nat).
Proof.
  unfold shortenHash. split.
  - intros H. apply shortenAddress_short. exact H.
  - intros H.
    destruct (shortenAddress_ends hash 6 4) as [R L]; try lia.
    split; [exact R | lia].
Qed.

Example shortenAddress_samples :
  shortenAddress "" None None = ""
  /\ shortenAddress "GABCDEFG" None None = "GABCDEFG"
  /\ shortenAddress "GABCDEFGHIJKLMNOP1234" None None = "GABC...1234"
  /\ shortenHash "abc123456789ef89" = "abc123...ef89".
Proof. repeat split. Qed.

End FormatFacts.

(* ================================================================== *)
(** ** scroll-to-top.js and ScrollToTop.tsx *)

Module ScrollToTopFacts.
Import Js Page.

(** *** The window *)

Lemma existsb_eqb_false f l :
  Forall (fun g => (g < f)%nat) l -> existsb (Nat.eqb f) l = false.
Proof.
  induction 1 as [|g l H _ IH]; simpl; [reflexivity |].
  rewrite IH, orb_false_r. apply Nat.eqb_neq. lia.
Qed.

Lemma filter_fresh f l :
  Forall (fun g => (g < f)%nat) l ->
  filter (fun g => negb (Nat.eqb f g)) l = l.
Proof.
  induction 1 as [|g l H _ IH]; simpl; [reflexivity |].
  rewrite IH. replace (Nat.eqb f g) with false; [reflexivity |].
  symmetry. apply Nat.eqb_neq. lia.
Qed.

Lemma filter_added f l :
  Forall (fun g => (g < f)%nat) l ->
  filter (fun g => negb (Nat.eqb f g)) (l ++ [f]) = l.
Proof.
  intros H. rewrite filter_app, (filter_fresh f l H). simpl.
  rewrite Nat.eqb_refl. simpl. apply app_nil_r.
Qed.

(** *** The class of scroll-to-top.js *)

Section Class.
Import ScrollToTopJs.

Lemma handleScroll_flag w i :
  isVisible (handleScroll w i) = gt (scrollY w) (threshold i).
Proof.
  unfold handleScroll.
  destruct (gt (scrollY w) (threshold i)), (isVisible i) eqn:V;
    simpl; try reflexivity; exact V.
Qed.

Lemma handleScroll_fields w i :
  threshold (handleScroll w i) = threshold i
  /\ closures (handleScroll w i) = closures i
  /\ attached (handleScroll w i) = attached i.
Proof.
  unfold handleScroll.
  destruct (gt (scrollY w) (threshold i)), (isVisible i); repeat split.
Qed.

Lemma handleScroll_consistent w i :
  consistent i -> consistent (handleScroll w i).
Proof.
  unfold handleScroll, consistent.
  destruct (gt (scrollY w) (threshold i)), (isVisible i) eqn:V;
    simpl; rewrite ?V; auto.
Qed.

(** Once the flag agrees with the position, the handler changes nothing. *)
Lemma handleScroll_settled w i :
  isVisible i = gt (scrollY w) (threshold i) -> handleScroll w i = i.
Proof.
  intros E. unfold handleScroll. rewrite <- E.
  destruct (isVisible i); reflexivity.
Qed.

Lemma handlers_cons w f l i :
  handlers w (f :: l) i = handlers w l (listener_runs w i f).
Proof. reflexivity. Qed.

Lemma handlers_fields w l : forall i,
  threshold (handlers w l i) = threshold i
  /\ closures (handlers w l i) = closures i
  /\ attached (handlers w l i) = attached i
  /\ (consistent i -> consistent (handlers w l i)).
Proof.
  induction l as [|f l IH]; intros i; [repeat split; auto |].
  rewrite handlers_cons. unfold listener_runs.
  destruct (existsb (Nat.eqb f) (closures i)); [| apply IH].
  destruct (IH (handleScroll w i)) as (A & B & C & D).
  destruct (handleScroll_fields w i) as (A' & B' & C').
  rewrite A, B, C, A', B', C'. repeat split.
  intros H. apply D, handleScroll_consistent, H.
Qed.

Lemma handlers_settled w l : forall i,
  isVisible i = gt (scrollY w) (threshold i) -> handlers w l i = i.
Proof.
  induction l as [|f l IH]; intros i E; [reflexivity |].
  rewrite handlers_cons. unfold listener_runs.
  destruct (existsb (Nat.eqb f) (closures i)); [| apply IH, E].
  rewrite (handleScroll_settled w i E). apply IH, E.
Qed.

Lemma handlers_flag w l : forall i,
  existsb (fun f => existsb (Nat.eqb f) (closures i)) l = true ->
  isVisible (handlers w l i) = gt (scrollY w) (threshold i).
Proof.
  induction l as [|f l IH]; intros i H; [discriminate |].
  rewrite handlers_cons. unfold listener_runs.
  cbn [existsb] in H.
  destruct (existsb (Nat.eqb f) (closures i)) eqn:E.
  - destruct (handleScroll_fields w i) as (T & _).
    rewrite handlers_settled; rewrite handleScroll_flag; congruence.
  - apply IH. exact H.
Qed.

Lemma step_window e s :
  scroll_listeners (fst (step e s)) = scroll_listeners (fst s)
  /\ next_fn (fst (step e s)) = next_fn (fst s)
  /\ scrollY (fst (step e s)) = Int (position e).
Proof. destruct e; repeat split. Qed.

Lemma step_fields e s :
  threshold (snd (step e s)) = threshold (snd s)
  /\ closures (snd (step e s)) = closures (snd s)
  /\ attached (snd (step e s)) = attached (snd s)
  /\ (consistent (snd s) -> consistent (snd (step e s))).
Proof.
  destruct e as [y|]; unfold step, dispatch_scroll; cbn [fst snd].
  - apply (handlers_fields (scrolled y (fst s))).
  - apply (handlers_fields (scrollToTop (fst s))).
Qed.

(** The flag after an event, as long as the instance is listening. *)
Lemma step_flag e s :
  listening s = true ->
  isVisible (snd (step e s)) = gt (Int (position e)) (threshold (snd s)).
Proof.
  intros L. destruct e as [y|]; unfold step, dispatch_scroll; cbn [fst snd].
  - apply (handlers_flag (scrolled y (fst s))). exact L.
  - apply (handlers_flag (scrollToTop (fst s))). exact L.
Qed.

Lemma step_listening e s : listening (step e s) = listening s.
Proof.
  unfold listening.
  destruct (step_window e s) as (W & _), (step_fields e s) as (_ & C & _).
  rewrite W, C. reflexivity.
Qed.

Lemma run_invariant es : forall s,
  listening (run es s) = listening s
  /\ threshold (snd (run es s)) = threshold (snd s)
  /\ attached (snd (run es s)) = attached (snd s)
  /\ (consistent (snd s) -> consistent (snd (run es s))).
Proof.
  induction es as [|e es IH]; intros s; [repeat split; auto |].
  cbn [run fold_left]. fold (run es (step e s)).
  destruct (IH (step e s)) as (A & B & C & D).
  destruct (step_fields e s) as (B' & _ & C' & D').
  rewrite A, B, C, step_listening, B', C'. repeat split. auto.
Qed.

Lemma run_last es e s : run (es ++ [e]) s = step e (run es s).
Proof. unfold run. rewrite fold_left_app. reflexivity. Qed.

Lemma existsb_eqb_in f l : In f l -> existsb (Nat.eqb f) l = true.
Proof.
  intros H. apply existsb_exists. exists f. split; [exact H |].
  apply Nat.eqb_refl.
Qed.

Lemma added_In f w : In f (scroll_listeners (addEventListener f w)).
Proof.
  unfold addEventListener.
  destruct (existsb (Nat.eqb f) (scroll_listeners w)) eqn:E.
  - apply existsb_exists in E. destruct E as (g & G & E).
    apply Nat.eqb_eq in E. subst g. exact G.
  - cbn [scroll_listeners]. apply in_or_app. right. left. reflexivity.
Qed.

Lemma constructed opt w :
  let s := new_ScrollToTop opt w in
  listening s = true
  /\ consistent (snd s)
  /\ isVisible (snd s) = false
  /\ attached (snd s) = true
  /\ threshold (snd s) = (if ToBoolean opt then ToNumber opt else Int 300).
Proof.
  cbv zeta. split; [| repeat split].
  unfold listening. apply existsb_exists. exists (next_fn w). split.
  - apply (added_In (next_fn w)).
  - cbn. rewrite Nat.eqb_refl. reflexivity.
Qed.

(** X6: the threshold of an instance is never 0 (nor [NaN]): a missing
    or falsy [options.threshold], 0 included, becomes 300, and every other
    number is kept. *)
Theorem threshold_fallback opt w :
  (exists z, z <> 0 /\ threshold (snd (new_ScrollToTop opt w)) = Int z)
  /\ (ToBoolean opt = false ->
      threshold (snd (new_ScrollToTop opt w)) = Int 300)
  /\ new_ScrollToTop (Num (Int 0)) w = new_ScrollToTop Undefined w
  /\ (forall z, z <> 0 ->
      threshold (snd (new_ScrollToTop (Num (Int z)) w)) = Int z).
Proof.
  destruct (constructed opt w) as (_ & _ & _ & _ & T).
  split; [| split; [| split]].
  - rewrite T. destruct opt as [| |[|z]]; cbn;
      try (exists 300; split; [discriminate | reflexivity]).
    destruct (Z.eqb_spec z 0) as [E|E]; cbn.
    + exists 300. split; [discriminate | reflexivity].
    + exists z. split; [exact E | reflexivity].
  - intros F. rewrite T, F. reflexivity.
  - reflexivity.
  - intros z Z.
    destruct (constructed (Num (Int z)) w) as (_ & _ & _ & _ & T').
    rewrite T'. cbn. destruct (Z.eqb_spec z 0); [contradiction | reflexivity].
Qed.

Lemma last_event_state opt w es e :
  isVisible (snd (run (es ++ [e]) (new_ScrollToTop opt w)))
  = gt (Int (position e)) (threshold (snd (new_ScrollToTop opt w)))
  /\ consistent (snd (run (es ++ [e]) (new_ScrollToTop opt w))).
Proof.
  destruct (constructed opt w) as (L & C & _ & _ & _).
  destruct (run_invariant es (new_ScrollToTop opt w)) as (L' & T' & _ & C').
  rewrite run_last. split.
  - rewrite step_flag by (rewrite L'; exact L). rewrite T'. reflexivity.
  - apply step_fields, C', C.
Qed.

(** X7: a new instance is hidden whatever the scroll position, and after
    any events the button is visible exactly when the position of the last
    event is above the threshold, with its two style properties set
    accordingly. *)
Theorem visibility_follows_last_event opt w es e :
  let s0 := new_ScrollToTop opt w in
  let s := run (es ++ [e]) s0 in
  isVisible (snd s0) = false
  /\ visibility (snd s0) = "hidden"
  /\ isVisible (snd s) = gt (Int (position e)) (threshold (snd s0))
  /\ consistent (snd s).
Proof.
  cbv zeta.
  destruct (constructed opt w) as (L & C & V & _ & _).
  destruct (run_invariant es (new_ScrollToTop opt w)) as (L' & T' & _ & C').
  split; [exact V |]. split; [reflexivity |].
  rewrite run_last. split.
  - rewrite step_flag by (rewrite L'; exact L). rewrite T'. reflexivity.
  - apply step_fields, C', C.
Qed.

Lemma constructed_well_formed opt w :
  well_formed w -> well_formed (fst (new_ScrollToTop opt w)).
Proof.
  intros H. unfold new_ScrollToTop, init, attachEventListeners, new_function.
  cbn [fst snd]. unfold addEventListener. cbn [scroll_listeners].
  rewrite (existsb_eqb_false _ _ H). unfold well_formed in *.
  cbn [scroll_listeners next_fn]. apply Forall_app. split.
  - eapply Forall_impl; [| exact H]. cbn. intros; lia.
  - constructor; [lia | constructor].
Qed.

Lemma run_well_formed es : forall s,
  well_formed (fst s) -> well_formed (fst (run es s)).
Proof.
  induction es as [|e es IH]; intros s H; [exact H |].
  cbn [run fold_left]. apply IH. destruct e; exact H.
Qed.

Lemma destroy_listeners s :
  well_formed (fst s) ->
  scroll_listeners (fst (destroy s)) = scroll_listeners (fst s).
Proof.
  intros H. unfold destroy, new_function, removeEventListener.
  cbn [fst scroll_listeners]. apply filter_fresh, H.
Qed.

(** X8: [destroy] detaches the button but removes no listener, because the
    function it hands to [removeEventListener] is a new one: the listeners
    of the window are as before, and the next scroll still updates the
    instance. *)
Theorem destroy_leaves_listener opt w es y :
  well_formed w ->
  let s0 := new_ScrollToTop opt w in
  let s1 := destroy (run es s0) in
  scroll_listeners (fst s1) = scroll_listeners (fst s0)
  /\ scroll_listeners (fst s1) <> []
  /\ attached (snd s1) = false
  /\ isVisible (snd (step (Scroll y) s1)) = gt (Int y) (threshold (snd s0)).
Proof.
  intros H. cbv zeta.
  destruct (constructed opt w) as (L & _ & _ & A & _).
  destruct (run_invariant es (new_ScrollToTop opt w)) as (L' & T' & A' & _).
  pose proof (run_well_formed es _ (constructed_well_formed opt w H)) as W.
  assert (E : scroll_listeners (fst (destroy (run es (new_ScrollToTop opt w))))
              = scroll_listeners (fst (new_ScrollToTop opt w))).
  { rewrite (destroy_listeners _ W).
    clear. induction es as [|x es IH] using rev_ind; [reflexivity |].
    rewrite run_last. destruct (step_window x (run es (new_ScrollToTop opt w)))
      as (S & _). rewrite S. exact IH. }
  assert (LS : listening (destroy (run es (new_ScrollToTop opt w))) = true).
  { rewrite <- L' in L. unfold listening in *.
    rewrite destroy_listeners by exact W.
    apply existsb_exists in L. destruct L as (f & F & G).
    apply existsb_exists. exists f. split; [exact F |].
    unfold destroy, new_function. cbn [snd closures existsb].
    rewrite G. apply orb_true_r. }
  split; [exact E |]. split.
  - rewrite E. intro N. unfold listening in L. rewrite N in L. discriminate.
  - split.
    + unfold destroy, new_function. cbn [snd attached].
      destruct (attached (snd (run es (new_ScrollToTop opt w)))); reflexivity.
    + rewrite (step_flag (Scroll y) _ LS). unfold destroy, new_function.
      cbn [snd threshold position]. rewrite T'. reflexivity.
Qed.

Lemma destroy_leaves_listener_witness :
  let w := mkWindow (Int 0) [] 0 in
  let s1 := destroy (run [Scroll 100] (new_ScrollToTop Undefined w)) in
  scroll_listeners (fst s1) = [0%nat]
  /\ isVisible (snd (step (Scroll 500) s1)) = true
  /\ visibility (snd (step (Scroll 500) s1)) = "visible".
Proof.
  cbv zeta.
  destruct (destroy_leaves_listener Undefined (mkWindow (Int 0) [] 0)
              [Scroll 100] 500 (Forall_nil _)) as (A & _ & _ & B).
  split; [exact A |]. split; [exact B | reflexivity].
Defined.

(** X11: back at the top of the page (a click on the button, or a scroll
    to 0) the button is hidden, unless the threshold is negative; with a
    negative threshold the button is visible at every position from 0 on. *)
Theorem top_of_page opt w es e :
  let s := run (es ++ [e]) (new_ScrollToTop opt w) in
  (position e = 0 ->
   (forall z, opt = Num (Int z) -> 0 <= z) ->
   isVisible (snd s) = false /\ visibility (snd s) = "hidden")
  /\ (0 <= position e ->
      (exists z, opt = Num (Int z) /\ z < 0) ->
      isVisible (snd s) = true /\ visibility (snd s) = "visible").
Proof.
  cbv zeta.
  destruct (last_event_state opt w es e) as (V & C).
  destruct (constructed opt w) as (_ & _ & _ & _ & T).
  rewrite T in V. unfold consistent in C. split.
  - intros P N.
    assert (F : isVisible (snd (run (es ++ [e]) (new_ScrollToTop opt w)))
                = false).
    { rewrite V, P. destruct opt as [| |[|z]]; cbn; try reflexivity.
      specialize (N z eq_refl).
      destruct (Z.eqb_spec z 0); cbn; [reflexivity | apply Z.ltb_ge; lia]. }
    rewrite F in C. split; [exact F | apply C].
  - intros P (z & -> & N).
    assert (F : isVisible (snd (run (es ++ [e])
                                  (new_ScrollToTop (Num (Int z)) w))) = true).
    { rewrite V. cbn. destruct (Z.eqb_spec z 0); cbn; [lia |].
      apply Z.ltb_lt. lia. }
    rewrite F in C. split; [exact F | apply C].
Qed.

End Class.

(** *** The component of ScrollToTop.tsx *)

Section Component.
Import ScrollToTopTsx.

Lemma mount_mounted w : mounted (mount w).
Proof.
  exists (next_fn w). split; [reflexivity |]. apply (added_In (next_fn w)).
Qed.

Lemma tsx_step_mounted e s :
  mounted s ->
  mounted (step e s)
  /\ isVisible (snd (step e s)) = gt (Int (position e)) SCROLL_THRESHOLD.
Proof.
  intros (f & H & I).
  destruct e as [y|]; unfold step, dispatch_scroll; cbn [fst snd];
    rewrite H; cbn [scroll_listeners scrolled scrollToTop scrollTo];
    rewrite (existsb_eqb_in f _ I); cbn [fst snd]; (split; [| reflexivity]);
    exists f; (split; [exact H | exact I]).
Qed.

Lemma tsx_run_mounted es : forall s, mounted s -> mounted (run es s).
Proof.
  induction es as [|e es IH]; intros s M; [exact M |].
  cbn [run fold_left]. apply IH. apply tsx_step_mounted, M.
Qed.

Lemma tsx_run_last es e s : run (es ++ [e]) s = step e (run es s).
Proof. unfold run. rewrite fold_left_app. reflexivity. Qed.

Lemma tsx_run_window es : forall s,
  scroll_listeners (fst (run es s)) = scroll_listeners (fst s).
Proof.
  induction es as [|e es IH]; intros s; [reflexivity |].
  cbn [run fold_left]. fold (run es (step e s)). rewrite IH.
  destruct e; unfold step, dispatch_scroll; cbn [fst snd];
    destruct (handler (snd s)); try reflexivity;
    match goal with |- context [if ?b then _ else _] => destruct b end;
    reflexivity.
Qed.

Lemma tsx_run_handler es : forall s,
  handler (snd (run es s)) = handler (snd s).
Proof.
  induction es as [|e es IH]; intros s; [reflexivity |].
  cbn [run fold_left]. fold (run es (step e s)). rewrite IH.
  destruct e; unfold step, dispatch_scroll; cbn [fst snd];
    destruct (handler (snd s)) eqn:H; try exact H;
    match goal with |- context [if ?b then _ else _] => destruct b end;
    cbn [snd handleScroll handler]; exact H.
Qed.

Lemma unmounted_idle es : forall s,
  handler (snd s) = None -> snd (run es s) = snd s.
Proof.
  induction es as [|e es IH]; intros s H; [reflexivity |].
  cbn [run fold_left]. fold (run es (step e s)).
  assert (E : snd (step e s) = snd s).
  { destruct e; unfold step, dispatch_scroll; cbn [fst snd];
      rewrite H; reflexivity. }
  rewrite IH; rewrite E; [reflexivity | exact H].
Qed.

(** X9: unmounting the component removes the very listener that mounting
    registered: the window has its listeners of before the mount, and
    later events leave the component as it is. *)
Theorem unmount_removes_listener w es es' :
  well_formed w ->
  let s := run es (mount w) in
  let s' := unmount (fst s) (snd s) in
  scroll_listeners (fst s') = scroll_listeners w
  /\ snd (run es' s') = snd s'.
Proof.
  intros H. cbv zeta.
  assert (HH : handler (snd (run es (mount w))) = Some (next_fn w)).
  { rewrite tsx_run_handler. reflexivity. }
  unfold unmount. rewrite HH. split.
  - cbn [fst]. unfold removeEventListener. cbn [scroll_listeners].
    rewrite tsx_run_window. unfold mount, new_function, addEventListener.
    cbn [fst scroll_listeners]. rewrite (existsb_eqb_false _ _ H).
    cbn [scroll_listeners]. apply filter_added, H.
  - apply unmounted_idle. reflexivity.
Qed.

Lemma unmount_removes_listener_witness :
  let w := mkWindow (Int 0) [] 0 in
  let s := run [Scroll 500] (mount w) in
  let s' := unmount (fst s) (snd s) in
  scroll_listeners (fst s') = []
  /\ isVisible (snd (run [Scroll 100] s')) = true.
Proof.
  cbv zeta.
  destruct (unmount_removes_listener (mkWindow (Int 0) [] 0)
              [Scroll 500] [Scroll 100] (Forall_nil _)) as (A & B).
  split; [exact A | rewrite B; reflexivity].
Defined.

(** X10: the class, made as the script makes it (threshold 300), and the
    component show the button after the same events: the flags agree, and
    the component renders nothing exactly when the button of the class is
    hidden. *)
Theorem components_agree w w' es :
  let js := snd (ScrollToTopJs.run es
                   (ScrollToTopJs.new_ScrollToTop (Num (Int 300)) w)) in
  let tsx := snd (run es (mount w')) in
  ScrollToTopJs.isVisible js = isVisible tsx
  /\ (render tsx = None <-> ScrollToTopJs.visibility js = "hidden").
Proof.
  cbv zeta.
  assert (V : ScrollToTopJs.isVisible
                (snd (ScrollToTopJs.run es
                        (ScrollToTopJs.new_ScrollToTop (Num (Int 300)) w)))
              = isVisible (snd (run es (mount w')))).
  { destruct es as [|x es0] using rev_ind; [reflexivity |].
    destruct (last_event_state (Num (Int 300)) w es0 x) as (A & _).
    rewrite A, tsx_run_last.
    destruct (tsx_step_mounted x (run es0 (mount w'))
                (tsx_run_mounted es0 _ (mount_mounted w'))) as (_ & B).
    rewrite B. reflexivity. }
  split; [exact V |].
  assert (C : ScrollToTopJs.consistent
                (snd (ScrollToTopJs.run es
                        (ScrollToTopJs.new_ScrollToTop (Num (Int 300)) w)))).
  { apply run_invariant. apply (constructed (Num (Int 300)) w). }
  unfold ScrollToTopJs.consistent in C. rewrite V in C.
  unfold render.
  destruct (isVisible (snd (run es (mount w')))); cbn [negb];
    destruct C as (_ & C); rewrite C.
  - split; discriminate.
  - split; reflexivity.
Qed.

End Component.

End ScrollToTopFacts.

(* ================================================================== *)
(** ** dateFormatter.js, further properties *)

Module DateFormatterMore.
Import Js DateFormatter.

(** The decimal rendering of a natural number starts with a digit, so it
    does not start a phrase with "Ended". *)
Lemma of_Z_not_Ended n rest rest' :
  0 <= n -> Str.of_Z n ++ rest <> "Ended " ++ rest'.
Proof.
  intros H. unfold Str.of_Z. destruct n as [|p|p]; [discriminate | | lia].
  cbn [Z.to_int NilZero.string_of_int].
  destruct (Pos.to_uint p); discriminate.
Qed.

(** The phrase for a timestamp that is not falsy, by the sign of the
    difference that the code computes. *)
Lemma relative_phrase clock t :
  t <> 0 ->
  formatRelativeTime clock (Num (Int t))
  = let diff := Binary64.nearest_double (t - clock / 1000) in
    if 0 <? diff then cascade diff ++ " left"
    else "Ended " ++ cascade diff ++ " ago".
Proof.
  intros H. rewrite (DateFormatterFacts.formatRelativeTime_Int clock t H).
  unfold cascade, unit_phrase. cbv zeta.
  set (diff := Binary64.nearest_double (t - clock / 1000)).
  destruct (0 <? diff);
    destruct (0 <? Z.abs diff / 86400);
    try destruct (0 <? Z.abs diff / 3600);
    rewrite ?DateFormatterFacts.plural_phrase; reflexivity.
Qed.

(** The unit of the cascade and the range of its count. *)
Lemma cascade_ranges d :
  exists n unit secs,
    cascade d = unit_phrase n unit
    /\ n * secs <= Z.abs d < (n + 1) * secs
    /\ ((unit = "day" /\ secs = 86400 /\ 1 <= n)
        \/ (unit = "hour" /\ secs = 3600 /\ 1 <= n <= 23)
        \/ (unit = "minute" /\ secs = 60 /\ 0 <= n <= 59)).
Proof.
  unfold cascade. cbv zeta. pose proof (Z.abs_nonneg d) as A.
  destruct (0 <? Z.abs d / 86400) eqn:D.
  - exists (Z.abs d / 86400), "day", 86400. apply Z.ltb_lt in D.
    split; [reflexivity |]. split; [| left; repeat split; lia].
    Z.div_mod_to_equations. lia.
  - apply Z.ltb_ge in D. destruct (0 <? Z.abs d / 3600) eqn:H.
    + exists (Z.abs d / 3600), "hour", 3600. apply Z.ltb_lt in H.
      split; [reflexivity |].
      split; [| right; left; repeat split]; Z.div_mod_to_equations; lia.
    + apply Z.ltb_ge in H. exists (Z.abs d / 60), "minute", 60.
      split; [reflexivity |].
      split; [| right; right; repeat split]; Z.div_mod_to_equations; lia.
Qed.



(** X13: for a timestamp that is not falsy, the phrase starts with "Ended"
    exactly when the timestamp is not after the current second; so an
    expired deadline always reads "Ended ... ago". *)
Theorem ended_iff_not_future clock t :
  t <> 0 ->
  ((exists rest, formatRelativeTime clock (Num (Int t)) = "Ended " ++ rest)
   <-> t <= clock / 1000)
  /\ (isExpired clock (Num (Int t)) = true ->
      exists phrase,
        formatRelativeTime clock (Num (Int t))
        = "Ended " ++ phrase ++ " ago").
Proof.
  intros H. rewrite (relative_phrase clock t H). cbv zeta.
  rewrite Binary64Facts.nearest_double_sign.
  set (diff := Binary64.nearest_double (t - clock / 1000)).
  split.
  - destruct (0 <? t - clock / 1000) eqn:E.
    + apply Z.ltb_lt in E. split; [| lia].
      intros (rest & R). exfalso.
      destruct (cascade_ranges diff) as (n & unit & secs & C & _ & U).
      rewrite C in R. unfold unit_phrase in R.
      rewrite StrFacts.app_assoc in R.
      apply (of_Z_not_Ended n _ _ ltac:(lia) R).
    + apply Z.ltb_ge in E. split; [lia |]. intros _. eexists. reflexivity.
  - intros X. rewrite (DateFormatterFacts.isExpired_Int clock t H) in X.
    apply Z.ltb_lt in X.
    destruct (0 <? t - clock / 1000) eqn:E.
    + apply Z.ltb_lt in E. lia.
    + eexists. reflexivity.
Qed.

Lemma ended_iff_not_future_witness :
  exists phrase,
    formatRelativeTime 1000000 (Num (Int 500)) = "Ended " ++ phrase ++ " ago".
Proof.
  exact (proj2 (ended_iff_not_future 1000000 500 ltac:(discriminate))
           eq_refl).
Defined.

(** X14: once a deadline has expired it stays expired as the clock moves
    on. *)
Theorem isExpired_monotone clock clock' ts :
  clock <= clock' ->
  isExpired clock ts = true -> isExpired clock' ts = true.
Proof.
  intros L. unfold isExpired. destruct (ToBoolean ts); [| trivial].
  cbn [negb]. destruct (ToNumber ts) as [|t]; [trivial |].
  cbn [Math_floor_div gt]. intros X. apply Z.ltb_lt in X. apply Z.ltb_lt.
  pose proof (Z.div_le_mono clock clock' 1000 ltac:(lia) L). lia.
Qed.

Lemma isExpired_monotone_witness :
  isExpired 6000 (Num (Int 5)) = true /\ isExpired 9500 (Num (Int 5)) = true.
Proof.
  split; [reflexivity |].
  apply (isExpired_monotone 6000 9500 (Num (Int 5)));
    [discriminate | reflexivity].
Defined.

(** X15: the distance reads the same before and after: the phrase for a
    deadline [d] seconds ago is the phrase for a deadline in [d] seconds,
    with "Ended ... ago" in the place of "... left". *)
Theorem relative_symmetric clock d :
  0 < d ->
  clock / 1000 + d <> 0 ->
  clock / 1000 - d <> 0 ->
  exists phrase,
    formatRelativeTime clock (Num (Int (clock / 1000 + d)))
    = phrase ++ " left"
    /\ formatRelativeTime clock (Num (Int (clock / 1000 - d)))
       = "Ended " ++ phrase ++ " ago".
Proof.
  intros D A B. exists (cascade (Binary64.nearest_double d)).
  rewrite (relative_phrase clock _ A), (relative_phrase clock _ B).
  cbv zeta.
  replace (clock / 1000 + d - clock / 1000) with d by lia.
  replace (clock / 1000 - d - clock / 1000) with (- d) by lia.
  rewrite !Binary64Facts.nearest_double_sign.
  assert (P : (0 <? d) = true) by (apply Z.ltb_lt; exact D).
  assert (N : (0 <? - d) = false) by (apply Z.ltb_ge; lia).
  rewrite P, N. split; [reflexivity |].
  unfold cascade. rewrite Binary64Facts.nearest_double_abs. reflexivity.
Qed.

Lemma relative_symmetric_witness :
  exists phrase,
    formatRelativeTime 1000000 (Num (Int (1000000 / 1000 + 7200)))
    = phrase ++ " left"
    /\ formatRelativeTime 1000000 (Num (Int (1000000 / 1000 - 7200)))
       = "Ended " ++ phrase ++ " ago".
Proof.
  apply (relative_symmetric 1000000 7200); [reflexivity | | ]; discriminate.
Defined.

Lemma absolute_Int format t locale :
  formatDate format (Num (Int t)) locale
  = (if Z.abs t <=? 8640000000000
     then format (default "en-US" locale) date_options (t * 1000)
     else "Invalid Date")
  /\ formatDateTime format (Num (Int t)) locale
     = (if Z.abs t <=? 8640000000000
        then format (default "en-US" locale) datetime_options (t * 1000)
        else "Invalid Date").
Proof.
  assert (G : negb (ToBoolean (Num (Int t))) && strict_ne (Num (Int t)) (Int 0)
              = false).
  { cbn. destruct (t =? 0); reflexivity. }
  assert (R : (Z.abs (t * 1000) <=? 8640000000000000)
              = (Z.abs t <=? 8640000000000)).
  { destruct (Z.leb_spec (Z.abs t) 8640000000000);
      [apply Z.leb_le | apply Z.leb_gt]; lia. }
  unfold formatDate, formatDateTime. rewrite G. cbv zeta.
  cbn [ToNumber mul lift2 new_Date]. rewrite R.
  destruct (Z.abs t <=? 8640000000000); split; reflexivity.
Qed.

(** X16: for a number, [formatDate] and [formatDateTime] hand the time value
    to the host's formatter when the timestamp is within 8,640,000,000,000
    seconds of the epoch, and answer "Invalid Date" beyond, whatever the
    host and the locale. *)
Theorem absolute_range format t locale :
  formatDate format (Num (Int t)) locale
  = (if Z.abs t <=? 8640000000000
     then format (default "en-US" locale) date_options (t * 1000)
     else "Invalid Date")
  /\ formatDateTime format (Num (Int t)) locale
     = (if Z.abs t <=? 8640000000000
        then format (default "en-US" locale) datetime_options (t * 1000)
        else "Invalid Date").
Proof.
  assert (G : negb (ToBoolean (Num (Int t))) && strict_ne (Num (Int t)) (Int 0)
              = false).
  { cbn. destruct (t =? 0); reflexivity. }
  assert (R : (Z.abs (t * 1000) <=? 8640000000000000)
              = (Z.abs t <=? 8640000000000)).
  { destruct (Z.leb_spec (Z.abs t) 8640000000000);
      [apply Z.leb_le | apply Z.leb_gt]; lia. }
  unfold formatDate, formatDateTime. rewrite G. cbv zeta.
  cbn [ToNumber mul lift2 new_Date]. rewrite R.
  destruct (Z.abs t <=? 8640000000000); split; reflexivity.
Qed.

(** X17: [formatRelativeTime] answers the placeholder exactly for the falsy
    timestamps; with a host that never prints the placeholder, [formatDate]
    and [formatDateTime] answer it exactly for [undefined], [null] and
    [NaN]. *)
Theorem placeholder_exactly format clock ts locale :
  never_placeholder format ->
  (formatRelativeTime clock ts = placeholder <-> ToBoolean ts = false)
  /\ (formatDate format ts locale = placeholder
      <-> ts = Undefined \/ ts = Null \/ ts = Num NaN)
  /\ (formatDateTime format ts locale = placeholder
      <-> ts = Undefined \/ ts = Null \/ ts = Num NaN).
Proof.
  intros H. split; [| split].
  - split.
    + intros E. destruct (ToBoolean ts) eqn:B; [exfalso | reflexivity].
      destruct ts as [| |[|t]]; try discriminate.
      assert (T : t <> 0).
      { intros ->. discriminate. }
      rewrite (relative_phrase clock t T) in E. cbv zeta in E.
      destruct (0 <? Binary64.nearest_double (t - clock / 1000));
        [| discriminate].
      destruct (cascade_ranges (Binary64.nearest_double (t - clock / 1000)))
        as (n & unit & secs & C & _).
      rewrite C in E. unfold unit_phrase in E.
      assert (L : String.length
                    ((Str.of_Z n ++ " " ++ unit ++ (if n =? 1 then "" else "s"))
                       ++ " left") = 3%nat) by (rewrite E; reflexivity).
      rewrite FormatFacts.length_app in L. simpl in L. lia.
    + intros B. unfold formatRelativeTime. rewrite B. reflexivity.
  - split.
    + intros E. destruct ts as [| |[|t]]; auto. exfalso.
      destruct (absolute_Int format t locale) as (A & _).
      rewrite A in E. destruct (Z.abs t <=? 8640000000000);
        [apply (H _ _ _ E) | discriminate].
    + intros [-> | [-> | ->]]; reflexivity.
  - split.
    + intros E. destruct ts as [| |[|t]]; auto. exfalso.
      destruct (absolute_Int format t locale) as (_ & A).
      rewrite A in E. destruct (Z.abs t <=? 8640000000000);
        [apply (H _ _ _ E) | discriminate].
    + intros [-> | [-> | ->]]; reflexivity.
Qed.

Lemma placeholder_exactly_witness :
  (formatRelativeTime 1000000 (Num (Int 0)) = placeholder
   <-> ToBoolean (Num (Int 0)) = false)
  /\ (formatDate EnUS.format (Num (Int 0)) None = placeholder
      <-> Num (Int 0) = Undefined \/ Num (Int 0) = Null
          \/ Num (Int 0) = Num NaN).
Proof.
  destruct (placeholder_exactly EnUS.format 1000000 (Num (Int 0)) None
              DateFormatterFacts.EnUS_never_placeholder) as (A & B & _).
  split; [exact A | exact B].
Defined.

End DateFormatterMore.
